(** * documentation-builder: the Markdown-to-HTML build pipeline

    A shallow embedding of [ubuntudesign/documentation_builder/builder.py]
    and the properties its specification states about it.

    Layout of the development:
    - [pystr]: Python [str] values as lists of characters (UTF-8 bytes),
      with the [str] methods the builder calls;
    - [re]: a backtracking matcher for the fragment of Python's [re]
      syntax that the two patterns of the builder use, and [re.sub];
    - [posixpath]: [os.path] on POSIX ([join], [dirname], [basename],
      [normpath], [abspath], [relpath]);
    - values, dictionaries, exceptions, the file system and the output
      streams, and the state-and-exception monad the builder runs in;
    - [parse_markdown] and the methods of [Builder];
    - the theorems. *)

From Stdlib Require Import Ascii.
From stdpp Require Import gmap strings list.

Set Default Proof Using "Type".

(** ** Python strings *)

Abbreviation pystr := (list ascii).

(** [str "abc"] is the Python literal ['abc']. *)
Definition str (s : string) : pystr := String.list_ascii_of_string s.

Definition DQ : ascii := "034"%char.   (* the double quote *)
Definition LF : ascii := "010"%char.   (* the newline *)
Definition SP : ascii := " "%char.
Definition SLASH : ascii := "/"%char.

Module pystring.

(** [s.startswith(p)] *)
Fixpoint startswith (s p : pystr) {struct p} : bool :=
  match p, s with
  | [], _ => true
  | _ :: _, [] => false
  | a :: p', b :: s' => bool_decide (a = b) && startswith s' p'
  end.

(** [s.endswith(p)] *)
Definition endswith (s p : pystr) : bool :=
  startswith (reverse s) (reverse p).

(** [s.replace(old, new)] for a non-empty [old]: the occurrences of
    [old] are found from the left and do not overlap.  [skip] counts
    the characters of an occurrence still to be passed over. *)
Fixpoint replace_go (old new : pystr) (skip : nat) (s : pystr) : pystr :=
  match s with
  | [] => []
  | c :: s' =>
      match skip with
      | S n => replace_go old new n s'
      | O =>
          if startswith s old
          then new ++ replace_go old new (length old - 1) s'
          else c :: replace_go old new 0 s'
      end
  end.

(** With an empty [old], Python puts [new] before every character and
    at the end. *)
Fixpoint intersperse_all (new s : pystr) : pystr :=
  match s with
  | [] => new
  | c :: s' => new ++ c :: intersperse_all new s'
  end.

Definition replace (s old new : pystr) : pystr :=
  match old with
  | [] => intersperse_all new s
  | _ :: _ => replace_go old new 0 s
  end.

(** [s.split(sep)] for a one-character separator: never an empty
    list, and [n] separators give [n + 1] fields. *)
Fixpoint split (sep : ascii) (s : pystr) : list pystr :=
  match s with
  | [] => [[]]
  | c :: s' =>
      if bool_decide (c = sep) then [] :: split sep s'
      else match split sep s' with
           | [] => [[c]]
           | f :: fs => (c :: f) :: fs
           end
  end.

(** [sep.join(fields)] *)
Fixpoint join (sep : pystr) (fields : list pystr) : pystr :=
  match fields with
  | [] => []
  | [f] => f
  | f :: fs => f ++ sep ++ join sep fs
  end.

(** [s.lstrip(c)] and [s.rstrip(c)] for a single character [c]. *)
Fixpoint lstrip (c : ascii) (s : pystr) : pystr :=
  match s with
  | x :: s' => if bool_decide (x = c) then lstrip c s' else s
  | [] => []
  end.

Definition rstrip (c : ascii) (s : pystr) : pystr :=
  reverse (lstrip c (reverse s)).

End pystring.

(** ** Regular expressions

    The fragment of Python's [re] that the builder's patterns are
    written in, matched the way [re] matches: by backtracking, the
    alternatives tried in priority order, greedy repetition taking as
    much as it can first. *)

Module re.

(** Things that match exactly one character. *)
Inductive atom :=
| Chr (c : ascii)     (* a literal character, also an escaped one: [\.] *)
| Dot.                (* [.] without DOTALL: anything but a newline *)

Definition atom_matches (a : atom) (c : ascii) : bool :=
  match a with
  | Chr d => bool_decide (c = d)
  | Dot => negb (bool_decide (c = LF))
  end.

Inductive regex :=
| Eps
| One (a : atom)
| Star (a : atom)               (* greedy [a*] *)
| Seq (r1 r2 : regex)
| Group (r : regex)             (* [( r )], the capturing group 1 *)
| NotAhead (r : regex)          (* [(?! r )] *)
| Dollar.                       (* [$] without MULTILINE *)

(** A literal word, character by character. *)
Fixpoint Lit (w : pystr) : regex :=
  match w with
  | [] => Eps
  | c :: w' => Seq (One (Chr c)) (Lit w')
  end.

(** Offsets are counted from the start of the match attempt. *)
Record mstate := MState {
  m_pos : nat;                       (* characters consumed so far *)
  m_group : option (nat * nat)       (* span of group 1, if closed *)
}.

Definition advance (st : mstate) : mstate :=
  MState (S (m_pos st)) (m_group st).

(** Greedy star: try one more repetition first, fall back to the
    continuation at the current position when that fails. *)
Fixpoint star {R} (a : atom) (s : pystr) (st : mstate)
    (k : pystr → mstate → option R) : option R :=
  match s with
  | c :: s' =>
      if atom_matches a c then
        match star a s' (advance st) k with
        | Some r => Some r
        | None => k s st
        end
      else k s st
  | [] => k s st
  end.

(** [$] matches at the end of the string and just before a newline
    that is the last character. *)
Definition at_dollar (s : pystr) : bool :=
  match s with
  | [] => true
  | [c] => bool_decide (c = LF)
  | _ => false
  end.

(** [run r s st k]: match [r] against the front of [s], then hand
    what is left to [k]; [None] makes the matcher backtrack. *)
Fixpoint run (r : regex) {R} (s : pystr) (st : mstate)
    (k : pystr → mstate → option R) : option R :=
  match r with
  | Eps => k s st
  | One a =>
      match s with
      | c :: s' => if atom_matches a c then k s' (advance st) else None
      | [] => None
      end
  | Star a => star a s st k
  | Seq r1 r2 => run r1 s st (λ s1 st1, run r2 s1 st1 k)
  | Group r1 =>
      run r1 s st
        (λ s1 st1, k s1 (MState (m_pos st1) (Some (m_pos st, m_pos st1))))
  | NotAhead r1 =>
      match run r1 s st (λ _ _, Some ()) with
      | Some _ => None
      | None => k s st
      end
  | Dollar => if at_dollar s then k s st else None
  end.

(** The match of [r] that starts at the front of [s], if any. *)
Definition match_here (r : regex) (s : pystr) : option mstate :=
  run r s (MState 0 None) (λ _ st, Some st).

(** Replacement templates: literal text and [\1]. *)
Inductive titem :=
| TText (t : pystr)
| TGroup1.

Definition group_text (s : pystr) (st : mstate) : pystr :=
  match m_group st with
  | Some (b, e) => take (e - b) (drop b s)
  | None => []            (* an unmatched group expands to nothing *)
  end.

Definition expand (tpl : list titem) (s : pystr) (st : mstate) : pystr :=
  concat ((λ it, match it with
                 | TText t => t
                 | TGroup1 => group_text s st
                 end) <$> tpl).

(** [re.sub(r, tpl, s)]: scan from the left; at a position where [r]
    matches, emit the expanded template and go on after the match;
    elsewhere copy the character.  [skip] counts the characters of
    the current match still to be passed over.  A match of length 0
    (which neither pattern of the builder has, see [href_md_nonempty]
    and [md_end_nonempty]) emits the template and copies the
    character. *)
Fixpoint sub_go (r : regex) (tpl : list titem) (skip : nat) (s : pystr)
    : pystr :=
  match s with
  | [] =>
      match skip, match_here r [] with
      | O, Some st => expand tpl [] st
      | _, _ => []
      end
  | c :: s' =>
      match skip with
      | S n => sub_go r tpl n s'
      | O =>
          match match_here r s with
          | Some st =>
              expand tpl s st ++
              match m_pos st with
              | O => c :: sub_go r tpl 0 s'
              | S n => sub_go r tpl n s'
              end
          | None => c :: sub_go r tpl 0 s'
          end
      end
  end.

Definition sub (r : regex) (tpl : list titem) (s : pystr) : pystr :=
  sub_go r tpl 0 s.

End re.

(** The two patterns of builder.py. *)

(** The pattern of [_replace_internal_links]: group 1 is [href=], a
    double quote, the negative lookahead [(?! *http)] and [.*]; the
    group is followed by [\.md]. *)
Definition href_md_pattern : re.regex :=
  re.Seq
    (re.Group
       (re.Seq (re.Lit (str "href=" ++ [DQ]))
          (re.Seq (re.NotAhead (re.Seq (re.Star (re.Chr SP)) (re.Lit (str "http"))))
             (re.Star re.Dot))))
    (re.Lit (str ".md")).

(** [r'\.md$'] *)
Definition md_end_pattern : re.regex :=
  re.Seq (re.Lit (str ".md")) re.Dollar.

(** ** Link rewriting *)

(** [Builder._replace_internal_links]; of [self] it reads only
    [no_link_extensions]. *)
Definition _replace_internal_links (no_link_extensions : bool)
    (html_document : pystr) : pystr :=
  if no_link_extensions then
    re.sub href_md_pattern [re.TGroup1] html_document
  else
    re.sub href_md_pattern [re.TGroup1; re.TText (str ".html")] html_document.

(** ** [os.path] on POSIX *)

Module posixpath.
Import pystring.

Definition isabs (p : pystr) : bool := startswith p [SLASH].

(** One step of [join(a, *p)]: an absolute component restarts the
    path, otherwise it is appended after exactly one separator. *)
Definition join2 (path b : pystr) : pystr :=
  if startswith b [SLASH] then b
  else if bool_decide (path = []) || endswith path [SLASH] then path ++ b
  else path ++ [SLASH] ++ b.

Definition join (a : pystr) (p : list pystr) : pystr := foldl join2 a p.

(** [(p[:i], p[i:])] for [i = p.rfind('/') + 1]. *)
Fixpoint split_at_last_slash (p : pystr) : pystr * pystr :=
  match p with
  | [] => ([], [])
  | c :: p' =>
      let '(h, t) := split_at_last_slash p' in
      if bool_decide (c = SLASH) then (c :: h, t)
      else match h with
           | [] => ([], c :: t)
           | _ :: _ => (c :: h, t)
           end
  end.

Definition all_slashes (s : pystr) : bool :=
  forallb (λ c, bool_decide (c = SLASH)) s.

Definition dirname (p : pystr) : pystr :=
  let head := (split_at_last_slash p).1 in
  if negb (bool_decide (head = [])) && negb (all_slashes head)
  then rstrip SLASH head
  else head.

Definition basename (p : pystr) : pystr := (split_at_last_slash p).2.

(** The loop of [normpath]; [stack] is [new_comps] with its last
    element first, [rooted] says whether the path has initial
    slashes. *)
Definition norm_step (rooted : bool) (stack : list pystr) (comp : pystr)
    : list pystr :=
  if bool_decide (comp = []) || bool_decide (comp = str ".") then stack
  else if negb (bool_decide (comp = str ".."))
          || (negb rooted && bool_decide (stack = []))
          || bool_decide (head stack = Some (str ".."))
  then comp :: stack
  else tail stack.

(** POSIX allows one or two initial slashes and treats three or more
    as one. *)
Definition initial_slashes (path : pystr) : nat :=
  if startswith path [SLASH] then
    if startswith path [SLASH; SLASH] && negb (startswith path [SLASH; SLASH; SLASH])
    then 2 else 1
  else 0.

Definition norm_comps (path : pystr) : list pystr :=
  reverse (foldl (norm_step (isabs path)) [] (split SLASH path)).

Definition normpath (path : pystr) : pystr :=
  match path with
  | [] => str "."
  | _ :: _ =>
      let path' :=
        replicate (initial_slashes path) SLASH
          ++ pystring.join [SLASH] (norm_comps path) in
      match path' with
      | [] => str "."
      | _ :: _ => path'
      end
  end.

(** [abspath]; [cwd] is what [os.getcwd()] returns. *)
Definition abspath (cwd path : pystr) : pystr :=
  normpath (if isabs path then path else join cwd [path]).

(** [[x for x in abspath(p).split(sep) if x]] *)
Definition components (cwd p : pystr) : list pystr :=
  filter (λ x, x ≠ []) (split SLASH (abspath cwd p)).

(** [len(commonprefix([l1, l2]))] *)
Fixpoint common_prefix_len (l1 l2 : list pystr) : nat :=
  match l1, l2 with
  | a :: l1', b :: l2' =>
      if bool_decide (a = b) then S (common_prefix_len l1' l2') else 0
  | _, _ => 0
  end.

(** [relpath(path, start)]; [None] is the [ValueError] raised for an
    empty [path]. *)
Definition relpath (cwd path start : pystr) : option pystr :=
  match path with
  | [] => None
  | _ :: _ =>
      let start_list := components cwd start in
      let path_list := components cwd path in
      let i := common_prefix_len start_list path_list in
      let rel_list :=
        replicate (length start_list - i) (str "..") ++ drop i path_list in
      match rel_list with
      | [] => Some (str ".")
      | a :: p => Some (join a p)
      end
  end.

End posixpath.

(** ** Values, dictionaries, exceptions *)

(** What YAML documents and metadata hold.  Mappings are keyed by
    strings, as template variables are. *)
#[warnings="-register-all"]
Inductive pyval :=
| PNone
| PBool (b : bool)
| PInt (z : Z)
| PStr (s : pystr)
| PList (l : list pyval)
| PDict (kvs : list (pystr * pyval)).

Abbreviation pydict := (gmap pystr pyval).

Inductive exn :=
| ScannerError        (* yaml.scanner.ScannerError *)
| ParserError         (* yaml.parser.ParserError *)
| YAMLError           (* any other error of the YAML library *)
| OSError             (* missing file, directory in the way, ... *)
| TypeError
| ValueError
| TemplateError.      (* raised by template.render *)

Inductive result (A : Type) :=
| Ok (a : A)
| Raise (e : exn).
Arguments Ok {A} a.
Arguments Raise {A} e.

(** [d[k] = v] for each pair, in order. *)
Definition dict_set_all (d : pydict) (kvs : list (pystr * pyval)) : pydict :=
  foldl (λ acc kv, <[kv.1 := kv.2]> acc) d kvs.

(** One element of a sequence handed to [dict.update]: an iterable of
    exactly two objects, a key and a value.  (A key that is not a [str]
    is outside this model and rejected like an unhashable one.) *)
Definition update_pair (item : pyval) : result (pystr * pyval) :=
  match item with
  | PList [PStr k; v] => Ok (k, v)
  | PList [_; _] => Raise TypeError
  | PStr [a; b] => Ok ([a], PStr [b])
  | PDict [(k1, _); (k2, _)] => Ok (k1, PStr k2)
  | PList _ | PStr _ | PDict _ => Raise ValueError
  | PNone | PBool _ | PInt _ => Raise TypeError
  end.

Fixpoint update_pairs (items : list pyval) : result (list (pystr * pyval)) :=
  match items with
  | [] => Ok []
  | item :: items' =>
      match update_pair item with
      | Ok kv =>
          match update_pairs items' with
          | Ok kvs => Ok (kv :: kvs)
          | Raise e => Raise e
          end
      | Raise e => Raise e
      end
  end.

(** [d.update(other)]: a mapping gives its items, any other iterable
    must yield pairs, and what cannot be iterated is a [TypeError]. *)
Definition dict_update (d : pydict) (other : pyval) : result pydict :=
  match other with
  | PDict kvs => Ok (dict_set_all d kvs)
  | PList items =>
      match update_pairs items with
      | Ok kvs => Ok (dict_set_all d kvs)
      | Raise e => Raise e
      end
  | PStr s =>
      match update_pairs ((λ c, PStr [c]) <$> s) with
      | Ok kvs => Ok (dict_set_all d kvs)
      | Raise e => Raise e
      end
  | PNone | PBool _ | PInt _ => Raise TypeError
  end.

(** ** The world the builder runs in *)

(** A location is the list of names that leads to it from the root:
    the components of the absolute, normalised path.  Paths are
    resolved as [posixpath.abspath] resolves them (no symbolic
    links). *)
Abbreviation location := (list pystr).

Record world := World {
  files : gmap location pystr;      (* regular files and their text *)
  dirs : gset location;             (* directories, the root apart *)
  stdout : list pystr;              (* what was printed, oldest first *)
  stderr : list pystr
}.

(** The libraries and the operating system, as far as the builder
    asks them. *)
Record libs := Libs {
  (** [os.getcwd()] *)
  cwd : pystr;
  (** [glob.iglob(pattern, recursive=True)], in the order it yields *)
  iglob : pystr → list pystr;
  (** [frontmatter.loads(text)]: metadata and content *)
  frontmatter_loads : pystr → result (pydict * pystr);
  (** [markdown_parser.convert(text)] with [markdown_extensions]: the
      HTML, and [markdown_parser.Meta] if the parser has that
      attribute afterwards *)
  markdown_convert : pystr → pystr * option pydict;
  (** [yaml.load(text)] *)
  yaml_load : pystr → result pyval
}.

(** State and exceptions: an exception keeps the effects that came
    before it. *)
Definition M (A : Type) : Type := world → result A * world.

Global Instance M_ret : MRet M := λ A a w, (Ok a, w).

Global Instance M_bind : MBind M := λ A B f m w,
  match m w with
  | (Ok a, w') => f a w'
  | (Raise e, w') => (Raise e, w')
  end.

Definition raise {A} (e : exn) : M A := λ w, (Raise e, w).

Definition lift {A} (r : result A) : M A := λ w, (r, w).

(** [try: body  except (ScannerError, ParserError): handler] *)
Definition try_except_yaml_syntax {A} (body handler : M A) : M A := λ w,
  match body w with
  | (Raise ScannerError, w') | (Raise ParserError, w') => handler w'
  | other => other
  end.

(** [for x in xs: body(x)] *)
Fixpoint for_each {A} (xs : list A) (body : A → M ()) : M () :=
  match xs with
  | [] => mret ()
  | x :: xs' => body x ;; for_each xs' body
  end.

Section os.
Context (L : libs).

Definition resolve (p : pystr) : location := posixpath.components (cwd L) p.

Definition is_dir (w : world) (loc : location) : bool :=
  bool_decide (loc = []) || bool_decide (loc ∈ dirs w).

(** [print(msg)] and [print(msg, file=sys.stderr)] *)
Definition print (msg : pystr) : M () := λ w,
  (Ok (), World (files w) (dirs w) (stdout w ++ [msg]) (stderr w)).

Definition print_stderr (msg : pystr) : M () := λ w,
  (Ok (), World (files w) (dirs w) (stdout w) (stderr w ++ [msg])).

(** [path.isdir(p)] *)
Definition isdir (p : pystr) : M bool := λ w,
  (Ok (negb (bool_decide (p = [])) && is_dir w (resolve p)), w).

(** [open(p).read()] *)
Definition read_text (p : pystr) : M pystr := λ w,
  match p with
  | [] => (Raise OSError, w)
  | _ :: _ =>
      match files w !! resolve p with
      | Some text => (Ok text, w)
      | None => (Raise OSError, w)
      end
  end.

(** The location and all the locations above it, the root apart. *)
Definition with_ancestors (loc : location) : list location :=
  (λ n, take (S n) loc) <$> seq 0 (length loc).

(** [makedirs(p, exist_ok=True)] *)
Definition makedirs (p : pystr) : M () := λ w,
  match p with
  | [] => (Raise OSError, w)
  | _ :: _ =>
      let locs := with_ancestors (resolve p) in
      if forallb (λ l, bool_decide (files w !! l = None)) locs
      then (Ok (), World (files w) (dirs w ∪ list_to_set locs) (stdout w) (stderr w))
      else (Raise OSError, w)
  end.

(** [with open(p, 'w') as f: f.write(text)] *)
Definition write_text (p text : pystr) : M () := λ w,
  let loc := resolve p in
  if negb (bool_decide (p = []))
     && negb (is_dir w loc)
     && is_dir w (removelast loc)
  then (Ok (), World (<[loc := text]> (files w)) (dirs w) (stdout w) (stderr w))
  else (Raise OSError, w).

(** Modelled from the spec: [utilities.mergetree], a local module
    that is not among the sources.  The spec has it copy the contents
    of the source directory recursively to the destination, merging
    into a destination tree that exists instead of replacing it:
    every file and directory below [src] appears at the same relative
    place below [dst], and whatever else the destination holds
    stays. *)
Definition rebase (src dst loc : location) : option location :=
  if bool_decide (src `prefix_of` loc)
  then Some (dst ++ drop (length src) loc)
  else None.

Definition mergetree (src dst : pystr) : M () := λ w,
  let S := resolve src in
  let D := resolve dst in
  let copied : list (location * pystr) :=
    omap (λ kv, (λ l, (l, kv.2)) <$> rebase S D kv.1) (map_to_list (files w)) in
  let made : list location :=
    omap (rebase S D) (elements (dirs w)) in
  (Ok (),
   World (list_to_map copied ∪ files w)
         (dirs w ∪ list_to_set (with_ancestors D) ∪ list_to_set made)
         (stdout w) (stderr w)).

End os.

(** ** builder.py *)

Section builder.
Context (L : libs).

(** [frontmatter.load(filepath)]: read the file, then parse it. *)
Definition frontmatter_load (filepath : pystr) : M (pydict * pystr) :=
  text ← read_text L filepath;
  lift (frontmatter_loads L text).

(** [if type(value) == list and len(value) == 1: value[0]], else the
    value as it is. *)
Definition unwrap_single (value : pyval) : pyval :=
  match value with
  | PList [x] => x
  | _ => value
  end.

(** The [try] statement of [parse_markdown]: the metadata and the
    Markdown text it leaves in [metadata] and [markdown_content]. *)
Definition extract_front_matter (filepath : pystr) : M (pydict * pystr) :=
  try_except_yaml_syntax
    (frontmatter_load filepath)
    (markdown_content ← read_text L filepath;
     mret (∅, markdown_content)).

(** [parse_markdown(filepath)] *)
Definition parse_markdown (filepath : pystr) : M (pystr * pydict) :=
  '(metadata, markdown_content) ← extract_front_matter filepath;
  let '(html_content, Meta) := markdown_convert L markdown_content in
  match Meta with
  | Some markdown_meta =>
      (* the loop rewrites the values in place; update lets them win *)
      mret (html_content, (unwrap_single <$> markdown_meta) ∪ metadata)
  | None => mret (html_content, metadata)
  end.

(** The attributes of a [Builder]. *)
Record Builder := {
  source_path : pystr;
  source_media_path : pystr;
  output_path : pystr;
  output_media_path : pystr;
  template : pydict → result pystr;      (* [template.render] *)
  media_url : option pystr;              (* [None] or a string *)
  no_link_extensions : bool;
  ignore_files : list pystr
}.

Context (self : Builder).

(** The loop of [_build_context] over the files [iglob] yields. *)
Fixpoint _build_context_loop (found : list pystr) (local_path : pystr)
    (local_context : pydict) : M pydict :=
  match found with
  | [] => mret local_context
  | context_filepath :: found' =>
      if pystring.startswith local_path (posixpath.dirname context_filepath)
      then
        text ← read_text L context_filepath;
        loaded ← lift (yaml_load L text);
        local_context' ← lift (dict_update local_context loaded);
        _build_context_loop found' local_path local_context'
      else _build_context_loop found' local_path local_context
  end.

Definition _build_context (local_path : pystr) : M pydict :=
  let context_match := source_path self ++ str "/**/context.yaml" in
  _build_context_loop (iglob L context_match) local_path ∅.

(** The context [_build_html] hands to [template.render]. *)
Definition template_context (local_context metadata : pydict)
    (html_content : pystr) : pydict :=
  <[str "content" := PStr html_content]> (metadata ∪ local_context).

Definition _build_html (source_filepath : pystr) : M pystr :=
  '(html_content, metadata) ← parse_markdown source_filepath;
  local_context ← _build_context (posixpath.dirname source_filepath);
  html_document ←
    lift (template self (template_context local_context metadata html_content));
  mret (_replace_internal_links (no_link_extensions self) html_document).

(** [self.media_url or relative_media_path] *)
Definition or_default (url : option pystr) (default : pystr) : pystr :=
  match url with
  | Some (c :: u) => c :: u
  | Some [] | None => default
  end.

(** [path.relpath] raises [ValueError] on an empty path. *)
Definition relpath (path start : pystr) : M pystr :=
  match posixpath.relpath (cwd L) path start with
  | Some r => mret r
  | None => raise ValueError
  end.

Definition _replace_media_links (html_document source_filepath
    output_filepath : pystr) : M pystr :=
  relative_media_path ←
    relpath (output_media_path self) (posixpath.dirname output_filepath);
  let media_url := or_default (media_url self) relative_media_path in
  old_media_path ←
    relpath (source_media_path self) (posixpath.dirname source_filepath);
  mret (pystring.replace html_document old_media_path media_url).

Definition _write_file (html_document output_filepath : pystr) : M () :=
  makedirs L (posixpath.dirname output_filepath);;
  write_text L output_filepath html_document;;
  print (str "Created " ++ output_filepath).

(** The output path [_build_file] decides on. *)
Definition output_filepath_of (local_path : pystr) : pystr :=
  re.sub md_end_pattern [re.TText (str ".html")]
    (posixpath.join (output_path self) [local_path]).

Definition _build_file (source_filepath : pystr) : M () :=
  html_document ← _build_html source_filepath;
  local_path ← relpath source_filepath (source_path self);
  let output_filepath := output_filepath_of local_path in
  html_document ←
    _replace_media_links html_document source_filepath output_filepath;
  _write_file html_document output_filepath.

(** The body of the loop of [_build_files]. *)
Definition _build_files_step (filepath : pystr) : M () :=
  if bool_decide (posixpath.basename filepath ∈ ignore_files self)
  then print (str "Ignored " ++ filepath)
  else _build_file filepath.

(** The files the loop of [_build_files] goes through. *)
Definition source_files : list pystr :=
  iglob L (posixpath.join (source_path self) [str "**/*.md"]).

Definition _build_files : M () :=
  for_each source_files _build_files_step.

Definition _copy_media : M () :=
  found ← isdir L (source_media_path self);
  if (found : bool) then
    rel ← relpath (source_media_path self) (output_media_path self);
    let media_paths_match := bool_decide (rel = str ".") in
    if negb media_paths_match then
      mergetree L (source_media_path self) (output_media_path self);;
      print (str "Copied " ++ source_media_path self
               ++ str " to " ++ output_media_path self)
    else mret ()
  else
    print_stderr (str "Warning: Media directory not found at "
                    ++ source_media_path self ++ str ".").

(** [Builder.build] *)
Definition build : M () :=
  _copy_media;;
  _build_files.

End builder.

(** ** Concrete documents and trees used in the examples *)

Module demo.

(** [href v] is the attribute [href=] with the value [v] in double
    quotes. *)
Definition href (v : string) : pystr := str "href=" ++ [DQ] ++ str v ++ [DQ].

(** A paragraph with two links on one line, as the Markdown renderer
    writes it. *)
Definition two_links (v1 v2 : string) : pystr :=
  str "<p>See <a " ++ href v1 ++ str ">A</a> and <a " ++ href v2
    ++ str ">B</a>.</p>".

(** A tree with a documentation root [docs], a page in [docs/en-gb]
    and a [context.yaml] in its sibling [docs/en]. *)
Definition sibling_libs : libs := {|
  cwd := str "/w";
  iglob := λ pattern,
    if bool_decide (pattern = str "docs/**/context.yaml")
    then [str "docs/en/context.yaml"]
    else if bool_decide (pattern = str "docs/**/*.md")
    then [str "docs/en-gb/page.md"]
    else [];
  frontmatter_loads := λ text, Ok (∅, text);
  markdown_convert := λ text, (str "<p>" ++ text ++ str "</p>", Some ∅);
  yaml_load := λ text, Ok (PDict [(str "language", PStr text)])
|}.

Definition sibling_world : world := {|
  files := list_to_map [
    ([str "w"; str "docs"; str "en"; str "context.yaml"], str "English");
    ([str "w"; str "docs"; str "en-gb"; str "page.md"], str "Colour")];
  dirs := list_to_set [
    [str "w"]; [str "w"; str "docs"];
    [str "w"; str "docs"; str "en"]; [str "w"; str "docs"; str "en-gb"]];
  stdout := [];
  stderr := []
|}.

(** A template that shows [title] and [content]. *)
Definition title_template (ctx : pydict) : result pystr :=
  match ctx !! str "title", ctx !! str "content" with
  | Some (PStr t), Some (PStr c) =>
      Ok (str "<title>" ++ t ++ str "</title>" ++ c)
  | _, Some (PStr c) => Ok c
  | _, _ => Raise TemplateError
  end.

Definition docs_builder : Builder := {|
  source_path := str "docs";
  source_media_path := str "docs/media";
  output_path := str "build";
  output_media_path := str "build/media";
  template := title_template;
  media_url := None;
  no_link_extensions := false;
  ignore_files := [str "README.md"]
|}.

(** A page whose front matter is not YAML ([title: [draft] opens a
    flow sequence and never closes it), while the meta extension of
    the Markdown parser reads the same line as metadata. *)
Definition bad_front_matter : pystr :=
  str "---" ++ [LF] ++ str "title: [draft" ++ [LF] ++ str "---" ++ [LF]
    ++ str "Body".

Definition meta_libs : libs := {|
  cwd := str "/w";
  iglob := λ _, [];
  frontmatter_loads := λ text,
    if bool_decide (text = bad_front_matter) then Raise ParserError
    else Ok (∅, text);
  markdown_convert := λ text,
    if bool_decide (text = bad_front_matter)
    then (str "<p>Body</p>", Some {[ str "title" := PList [PStr (str "[draft")] ]})
    else (str "<p>" ++ text ++ str "</p>", Some ∅);
  yaml_load := λ _, Ok (PDict [])
|}.

Definition meta_world : world := {|
  files := {[ [str "w"; str "docs"; str "page.md"] := bad_front_matter ]};
  dirs := list_to_set [[str "w"]; [str "w"; str "docs"]];
  stdout := [];
  stderr := []
|}.

(** A page with front matter and meta-extension metadata that
    collide on [title]. *)
Definition collision_libs : libs := {|
  cwd := str "/w";
  iglob := λ pattern,
    if bool_decide (pattern = str "docs/**/context.yaml")
    then [str "docs/context.yaml"]
    else [];
  frontmatter_loads := λ text,
    Ok ({[ str "title" := PStr (str "Front");
           str "content" := PStr (str "from front matter") ]}, text);
  markdown_convert := λ text,
    (str "<p>" ++ text ++ str "</p>",
     Some {[ str "title" := PList [PStr (str "Meta")];
             str "tags" := PList [PStr (str "a"); PStr (str "b")] ]});
  yaml_load := λ text,
    Ok (PDict [(str "title", PStr (str "Context"));
               (str "site", PStr text);
               (str "content", PStr (str "from context.yaml"))])
|}.

Definition collision_world : world := {|
  files := list_to_map [
    ([str "w"; str "docs"; str "context.yaml"], str "Docs");
    ([str "w"; str "docs"; str "page.md"], str "Body")];
  dirs := list_to_set [[str "w"]; [str "w"; str "docs"]];
  stdout := [];
  stderr := []
|}.

(** A small site: two pages, a [README.md] that the builder is told
    to ignore, a [context.yaml] at the root and a media directory. *)
Definition site_libs : libs := {|
  cwd := str "/w";
  iglob := λ pattern,
    if bool_decide (pattern = str "docs/**/*.md")
    then [str "docs/index.md"; str "docs/README.md"; str "docs/en/intro.md"]
    else if bool_decide (pattern = str "docs/**/context.yaml")
    then [str "docs/context.yaml"]
    else [];
  frontmatter_loads := λ text, Ok (∅, text);
  markdown_convert := λ text, (str "<p>" ++ text ++ str "</p>", Some ∅);
  yaml_load := λ text, Ok (PDict [(str "title", PStr text)])
|}.

Definition site_world : world := {|
  files := list_to_map [
    ([str "w"; str "docs"; str "index.md"], str "Welcome");
    ([str "w"; str "docs"; str "README.md"], str "Read me");
    ([str "w"; str "docs"; str "en"; str "intro.md"], str "Intro");
    ([str "w"; str "docs"; str "context.yaml"], str "Docs");
    ([str "w"; str "docs"; str "media"; str "logo.png"], str "PNG");
    ([str "w"; str "build"; str "media"; str "old.png"], str "OLD")];
  dirs := list_to_set [
    [str "w"]; [str "w"; str "docs"]; [str "w"; str "docs"; str "en"];
    [str "w"; str "docs"; str "media"];
    [str "w"; str "build"]; [str "w"; str "build"; str "media"]];
  stdout := [];
  stderr := []
|}.

End demo.

(** * Properties *)

(** ** Matches are never empty *)

Module re_facts.
Import re.

(** The least number of characters a match of [r] consumes. *)
Fixpoint min_len (r : regex) : nat :=
  match r with
  | One _ => 1
  | Seq r1 r2 => min_len r1 + min_len r2
  | Group r1 => min_len r1
  | Eps | Star _ | NotAhead _ | Dollar => 0
  end.

Lemma star_reaches {R} a s st (k : pystr → mstate → option R) x :
  star a s st k = Some x →
  ∃ s1 st1, k s1 st1 = Some x ∧ m_pos st ≤ m_pos st1.
Proof.
  revert st. induction s as [|c s IH]; intros st; simpl.
  - intros H. exists [], st. split; [done | lia].
  - destruct (atom_matches a c).
    + destruct (star a s (advance st) k) as [y|] eqn:E.
      * intros [= ->]. destruct (IH _ E) as (s1 & st1 & Hk & Hle).
        exists s1, st1. split; [done |]. simpl in Hle. lia.
      * intros H. exists (c :: s), st. split; [done | lia].
    + intros H. exists (c :: s), st. split; [done | lia].
Qed.

Lemma run_reaches r : ∀ {R} s st (k : pystr → mstate → option R) x,
  run r s st k = Some x →
  ∃ s1 st1, k s1 st1 = Some x ∧ m_pos st + min_len r ≤ m_pos st1.
Proof.
  induction r as [|a|a|r1 IH1 r2 IH2|r1 IH1|r1 IH1|]; intros R s st k x; simpl.
  - intros H. exists s, st. split; [done | lia].
  - destruct s as [|c s]; [done |]. destruct (atom_matches a c); [|done].
    intros H. exists s, (advance st). split; [done |]. simpl. lia.
  - intros H. destruct (star_reaches _ _ _ _ _ H) as (s1 & st1 & ? & ?).
    exists s1, st1. split; [done | lia].
  - intros H. destruct (IH1 _ _ _ _ _ H) as (s1 & st1 & H2 & Hle1).
    destruct (IH2 _ _ _ _ _ H2) as (s2 & st2 & Hk & Hle2).
    exists s2, st2. split; [done | lia].
  - intros H. destruct (IH1 _ _ _ _ _ H) as (s1 & st1 & Hk & Hle).
    eexists _, _. split; [exact Hk |]. simpl. lia.
  - destruct (run r1 s st _); [done |].
    intros H. exists s, st. split; [done | lia].
  - destruct (at_dollar s); [|done].
    intros H. exists s, st. split; [done | lia].
Qed.

Lemma match_here_min_len r s st :
  match_here r s = Some st → min_len r ≤ m_pos st.
Proof.
  unfold match_here. intros H.
  destruct (run_reaches _ _ _ _ _ H) as (s1 & st1 & [= ->] & Hle).
  simpl in Hle. lia.
Qed.

End re_facts.

(** A match of the link pattern has at least the nine characters of
    [href=], the quote and [.md]. *)
Lemma href_md_nonempty s st :
  re.match_here href_md_pattern s = Some st → 9 ≤ re.m_pos st.
Proof. apply (re_facts.match_here_min_len href_md_pattern). Qed.

Lemma md_end_nonempty s st :
  re.match_here md_end_pattern s = Some st → 3 ≤ re.m_pos st.
Proof. apply (re_facts.match_here_min_len md_end_pattern). Qed.

(** ** Internal links *)

(** A lone internal link is rewritten as intended. *)
Example lone_link_html :
  _replace_internal_links false (str "<a " ++ demo.href "page.md" ++ str ">x</a>")
  = str "<a " ++ demo.href "page.html" ++ str ">x</a>".
Proof. vm_compute. reflexivity. Qed.

Example lone_link_stripped :
  _replace_internal_links true (str "<a " ++ demo.href "page.md" ++ str ">x</a>")
  = str "<a " ++ demo.href "page" ++ str ">x</a>".
Proof. vm_compute. reflexivity. Qed.

(** C1, at a paragraph with two internal links on one line.  Both
    values end in [.md] and neither starts with [http], so both should
    be rewritten; the greedy [.*] of the pattern runs from the first
    [href=] to the last [.md] of the line, and only the second link
    changes: with and without [no_link_extensions] the first link still
    ends in [.md]. *)
Theorem replace_internal_links_keeps_first_of_two :
  _replace_internal_links false (demo.two_links "a.md" "b.md")
    = demo.two_links "a.md" "b.html"
  ∧ _replace_internal_links true (demo.two_links "a.md" "b.md")
    = demo.two_links "a.md" "b".
Proof. split; vm_compute; reflexivity. Qed.

(** C2, at a paragraph whose second link is external.  The match that
    starts at the first, internal [href=] extends over the rest of the
    line, so the [.md] that is rewritten is the one inside the
    [http://] link. *)
Theorem replace_internal_links_rewrites_http_link :
  _replace_internal_links false
      (demo.two_links "a.html" "http://example.com/b.md")
    = demo.two_links "a.html" "http://example.com/b.html"
  ∧ _replace_internal_links true
      (demo.two_links "a.html" "http://example.com/b.md")
    = demo.two_links "a.html" "http://example.com/b".
Proof. split; vm_compute; reflexivity. Qed.

(** ** Running the monad *)

Lemma bind_ok {A B} (m : M A) (f : A → M B) w a w1 :
  m w = (Ok a, w1) → (m ≫= f) w = f a w1.
Proof. intros H. unfold mbind, M_bind. by rewrite H. Qed.

Lemma bind_raise {A B} (m : M A) (f : A → M B) w e w1 :
  m w = (Raise e, w1) → (m ≫= f) w = (Raise e, w1).
Proof. intros H. unfold mbind, M_bind. by rewrite H. Qed.

Lemma bind_ok_inv {A B} (m : M A) (f : A → M B) w b w2 :
  (m ≫= f) w = (Ok b, w2) →
  ∃ a w1, m w = (Ok a, w1) ∧ f a w1 = (Ok b, w2).
Proof.
  unfold mbind, M_bind. destruct (m w) as [[a|e] w1]; [eauto | done].
Qed.

Lemma read_text_world L p w r w1 : read_text L p w = (r, w1) → w1 = w.
Proof.
  unfold read_text. destruct p; [congruence |].
  destruct (files w !! _); congruence.
Qed.

(** ** Front matter and metadata *)

Lemma unwrap_single_one x : unwrap_single (PList [x]) = x.
Proof. reflexivity. Qed.

Lemma unwrap_single_other v : (∀ x, v ≠ PList [x]) → unwrap_single v = v.
Proof.
  intros H. destruct v as [| | | |[|x [|y l]]|]; try reflexivity.
  by destruct (H x).
Qed.

(** What [parse_markdown] returns once the [try] statement has left
    [base] and [content]. *)
Lemma parse_markdown_after_front_matter L filepath w base content w1 :
  extract_front_matter L filepath w = (Ok (base, content), w1) →
  parse_markdown L filepath w =
    (Ok ((markdown_convert L content).1,
         match (markdown_convert L content).2 with
         | Some markdown_meta => (unwrap_single <$> markdown_meta) ∪ base
         | None => base
         end), w1).
Proof.
  intros H. unfold parse_markdown. rewrite (bind_ok _ _ _ _ _ H).
  destruct (markdown_convert L content) as [html [meta|]]; reflexivity.
Qed.

(** On a YAML syntax error the [try] statement leaves no metadata and
    the whole file. *)
Lemma extract_front_matter_on_yaml_error L filepath w text :
  read_text L filepath w = (Ok text, w) →
  frontmatter_loads L text = Raise ScannerError
    ∨ frontmatter_loads L text = Raise ParserError →
  extract_front_matter L filepath w = (Ok (∅, text), w).
Proof.
  intros Hread Hyaml.
  unfold extract_front_matter, try_except_yaml_syntax, frontmatter_load.
  rewrite (bind_ok _ _ _ _ _ Hread). unfold lift.
  destruct Hyaml as [-> | ->]; by rewrite (bind_ok _ _ _ _ _ Hread).
Qed.

(** C3, amended.  When the front matter of a file is not YAML
    ([frontmatter] raises [ScannerError] or [ParserError]),
    [parse_markdown] does not fail: it converts the whole text of the
    file, and the metadata it returns are those the meta extension
    found in that text, single-element lists unwrapped; they are empty
    when the extension found none. *)
Theorem parse_markdown_yaml_error_falls_back L filepath w text :
  read_text L filepath w = (Ok text, w) →
  frontmatter_loads L text = Raise ScannerError
    ∨ frontmatter_loads L text = Raise ParserError →
  parse_markdown L filepath w =
    (Ok ((markdown_convert L text).1,
         match (markdown_convert L text).2 with
         | Some markdown_meta => unwrap_single <$> markdown_meta
         | None => ∅
         end), w).
Proof.
  intros Hread Hyaml.
  rewrite (parse_markdown_after_front_matter L filepath w ∅ text w);
    [| by apply extract_front_matter_on_yaml_error].
  destruct (markdown_convert L text).2; [| done].
  by rewrite (right_id_L ∅ (∪)).
Qed.

Lemma parse_markdown_yaml_error_falls_back_witness :
  parse_markdown demo.meta_libs (str "docs/page.md") demo.meta_world =
    (Ok ((markdown_convert demo.meta_libs demo.bad_front_matter).1,
         match (markdown_convert demo.meta_libs demo.bad_front_matter).2 with
         | Some markdown_meta => unwrap_single <$> markdown_meta
         | None => ∅
         end), demo.meta_world).
Proof.
  apply (parse_markdown_yaml_error_falls_back
           demo.meta_libs (str "docs/page.md") demo.meta_world
           demo.bad_front_matter).
  - vm_compute. reflexivity.
  - right. vm_compute. reflexivity.
Defined.

(** C3 as the spec words it fails: on the page [demo.bad_front_matter]
    the front matter is rejected with a [ParserError], the whole file
    is converted, and yet the metadata are not empty, since the meta
    extension read [title] from the text. *)
Lemma parse_markdown_yaml_error_metadata_not_empty :
  read_text demo.meta_libs (str "docs/page.md") demo.meta_world
    = (Ok demo.bad_front_matter, demo.meta_world)
  ∧ frontmatter_loads demo.meta_libs demo.bad_front_matter = Raise ParserError
  ∧ ¬ ∃ html w1,
        parse_markdown demo.meta_libs (str "docs/page.md") demo.meta_world
          = (Ok (html, ∅), w1).
Proof.
  split; [vm_compute; reflexivity |].
  split; [vm_compute; reflexivity |].
  intros (html & w1 & H).
  assert (Hp : ∃ metadata,
    parse_markdown demo.meta_libs (str "docs/page.md") demo.meta_world
      = (Ok (str "<p>Body</p>", metadata), demo.meta_world)
    ∧ metadata !! str "title" = Some (PStr (str "[draft"))).
  { eexists. split; [vm_compute; reflexivity |]. vm_compute. reflexivity. }
  destruct Hp as (metadata & Hp & Htitle).
  rewrite Hp in H. injection H as _ Hm _. subst metadata.
  by rewrite lookup_empty in Htitle.
Qed.

(** C7.  Once the [try] statement has left the front-matter metadata
    [fm], and the Markdown parser has the metadata [markdown_meta] of
    its meta extension, [parse_markdown] returns metadata in which a
    value of [markdown_meta] that is a one-element list is that
    element, any other value of [markdown_meta] is itself, and a key
    that [markdown_meta] does not have keeps its front-matter value: on
    a collision the meta extension wins. *)
Theorem parse_markdown_merges_meta L filepath w fm content w1 html markdown_meta :
  extract_front_matter L filepath w = (Ok (fm, content), w1) →
  markdown_convert L content = (html, Some markdown_meta) →
  ∃ metadata,
    parse_markdown L filepath w = (Ok (html, metadata), w1)
    ∧ (∀ k x, markdown_meta !! k = Some (PList [x]) → metadata !! k = Some x)
    ∧ (∀ k v, markdown_meta !! k = Some v → (∀ x, v ≠ PList [x]) →
              metadata !! k = Some v)
    ∧ (∀ k, markdown_meta !! k = None → metadata !! k = fm !! k).
Proof.
  intros Hfm Hconv.
  exists ((unwrap_single <$> markdown_meta) ∪ fm). split; [| split; [| split]].
  - rewrite (parse_markdown_after_front_matter _ _ _ _ _ _ Hfm).
    by rewrite Hconv.
  - intros k x Hk. apply lookup_union_Some_l.
    by rewrite lookup_fmap, Hk.
  - intros k v Hk Hv. apply lookup_union_Some_l.
    rewrite lookup_fmap, Hk. simpl. by rewrite unwrap_single_other.
  - intros k Hk. apply lookup_union_r. by rewrite lookup_fmap, Hk.
Qed.

Lemma parse_markdown_merges_meta_witness :
  ∃ metadata,
    parse_markdown demo.collision_libs (str "docs/page.md") demo.collision_world
      = (Ok (str "<p>Body</p>", metadata), demo.collision_world)
    ∧ (∀ k x, ({[ str "title" := PList [PStr (str "Meta")];
                  str "tags" := PList [PStr (str "a"); PStr (str "b")] ]}
                : pydict) !! k = Some (PList [x]) → metadata !! k = Some x)
    ∧ (∀ k v, ({[ str "title" := PList [PStr (str "Meta")];
                  str "tags" := PList [PStr (str "a"); PStr (str "b")] ]}
                : pydict) !! k = Some v → (∀ x, v ≠ PList [x]) →
              metadata !! k = Some v)
    ∧ (∀ k, ({[ str "title" := PList [PStr (str "Meta")];
                str "tags" := PList [PStr (str "a"); PStr (str "b")] ]}
              : pydict) !! k = None →
            metadata !! k =
              ({[ str "title" := PStr (str "Front");
                  str "content" := PStr (str "from front matter") ]}
               : pydict) !! k).
Proof.
  apply (parse_markdown_merges_meta
           demo.collision_libs (str "docs/page.md") demo.collision_world
           _ (str "Body") demo.collision_world).
  - vm_compute. reflexivity.
  - reflexivity.
Defined.

(** ** The template context *)

Lemma build_html_unfold L self src w html metadata w1 local_context w2 :
  parse_markdown L src w = (Ok (html, metadata), w1) →
  _build_context L self (posixpath.dirname src) w1 = (Ok local_context, w2) →
  _build_html L self src w =
    (match template self (template_context local_context metadata html) with
     | Ok doc => Ok (_replace_internal_links (no_link_extensions self) doc)
     | Raise e => Raise e
     end, w2).
Proof.
  intros Hparse Hctx. unfold _build_html.
  rewrite (bind_ok _ _ _ _ _ Hparse). simpl.
  rewrite (bind_ok _ _ _ _ _ Hctx).
  unfold mbind, M_bind, lift.
  by destruct (template self _).
Qed.

(** C10.  The context that [_build_html] renders the template with has
    the converted Markdown under [content], whatever the metadata and
    the [context.yaml] files say about that key; under any other key it
    has the value of the document's metadata if they have the key, and
    the value of the merged [context.yaml] files otherwise. *)
Theorem build_html_context_precedence
    L self src w html metadata w1 local_context w2 :
  parse_markdown L src w = (Ok (html, metadata), w1) →
  _build_context L self (posixpath.dirname src) w1 = (Ok local_context, w2) →
  ∃ ctx,
    _build_html L self src w =
      (match template self ctx with
       | Ok doc => Ok (_replace_internal_links (no_link_extensions self) doc)
       | Raise e => Raise e
       end, w2)
    ∧ ctx !! str "content" = Some (PStr html)
    ∧ (∀ k v, k ≠ str "content" → metadata !! k = Some v → ctx !! k = Some v)
    ∧ (∀ k, k ≠ str "content" → metadata !! k = None →
            ctx !! k = local_context !! k).
Proof.
  intros Hparse Hctx.
  exists (template_context local_context metadata html).
  split; [by apply build_html_unfold with w1 |].
  unfold template_context. split; [apply lookup_insert_eq |].
  split.
  - intros k v Hk Hm. rewrite lookup_insert_ne by done.
    by apply lookup_union_Some_l.
  - intros k Hk Hm. rewrite lookup_insert_ne by done.
    by apply lookup_union_r.
Qed.

Lemma build_html_context_precedence_witness :
  ∃ ctx,
    _build_html demo.collision_libs demo.docs_builder (str "docs/page.md")
        demo.collision_world =
      (match template demo.docs_builder ctx with
       | Ok doc =>
           Ok (_replace_internal_links (no_link_extensions demo.docs_builder) doc)
       | Raise e => Raise e
       end, demo.collision_world)
    ∧ ctx !! str "content" = Some (PStr (str "<p>Body</p>"))
    ∧ (∀ k v, k ≠ str "content" →
         ({[ str "title" := PStr (str "Meta");
             str "tags" := PList [PStr (str "a"); PStr (str "b")];
             str "content" := PStr (str "from front matter") ]} : pydict) !! k
           = Some v →
         ctx !! k = Some v)
    ∧ (∀ k, k ≠ str "content" →
         ({[ str "title" := PStr (str "Meta");
             str "tags" := PList [PStr (str "a"); PStr (str "b")];
             str "content" := PStr (str "from front matter") ]} : pydict) !! k
           = None →
         ctx !! k =
           ({[ str "title" := PStr (str "Context");
               str "site" := PStr (str "Docs");
               str "content" := PStr (str "from context.yaml") ]} : pydict) !! k).
Proof.
  apply (build_html_context_precedence
           demo.collision_libs demo.docs_builder (str "docs/page.md")
           demo.collision_world _ _ demo.collision_world _ demo.collision_world).
  - vm_compute. reflexivity.
  - vm_compute. reflexivity.
Defined.

(** ** Context files *)

(** The directory [d] is the directory [doc_dir] or one above it. *)
Definition ancestor_or_self (L : libs) (d doc_dir : pystr) : Prop :=
  resolve L d `prefix_of` resolve L doc_dir.

(** C4, at a page in [docs/en-gb] next to a directory [docs/en] with a
    [context.yaml].  [docs/en] is not [docs/en-gb] nor above it, but
    the string [docs/en-gb] starts with the string [docs/en], and
    [_build_context] merges the file: the page gets the [language] of
    its sibling. *)
Theorem build_context_merges_sibling_with_prefix_name :
  ¬ ancestor_or_self demo.sibling_libs
      (posixpath.dirname (str "docs/en/context.yaml")) (str "docs/en-gb")
  ∧ ∃ local_context,
      _build_context demo.sibling_libs demo.docs_builder (str "docs/en-gb")
          demo.sibling_world
        = (Ok local_context, demo.sibling_world)
      ∧ local_context !! str "language" = Some (PStr (str "English")).
Proof.
  split.
  - intros [k Hk]. vm_compute in Hk. discriminate Hk.
  - eexists. split; vm_compute; reflexivity.
Qed.

(** ** Substring replacement *)

Section replace_facts.
Import pystring.

Lemma startswith_spec s p : startswith s p = true ↔ ∃ q, s = p ++ q.
Proof.
  revert s. induction p as [|a p IH]; intros s; simpl.
  - split; [intros _; by exists s | done].
  - destruct s as [|b s].
    + split; [done | intros [q Hq]; discriminate Hq].
    + rewrite andb_true_iff, bool_decide_eq_true, IH. split.
      * intros [-> [q ->]]. by exists q.
      * intros [q [= -> ->]]. eauto.
Qed.

(** What it means to replace every occurrence of [old]: either there
    is none and the text stays, or the text is cut at its leftmost
    occurrence, what is before it is kept, [new] takes its place, and
    the rest is treated the same way. *)
Inductive replaced (old new : pystr) : pystr → pystr → Prop :=
| replaced_none s :
    (∀ p q, s ≠ p ++ old ++ q) →
    replaced old new s s
| replaced_leftmost p rest rest' :
    (∀ p' q', p ++ old ++ rest = p' ++ old ++ q' → length p ≤ length p') →
    replaced old new rest rest' →
    replaced old new (p ++ old ++ rest) (p ++ new ++ rest').

Lemma replaced_cons old new c s r :
  startswith (c :: s) old = false →
  replaced old new s r →
  replaced old new (c :: s) (c :: r).
Proof.
  intros Hno Hr.
  assert (Hpre : ∀ q, c :: s ≠ old ++ q).
  { intros q Hq. assert (startswith (c :: s) old = true) as Ht
      by (apply startswith_spec; eauto). congruence. }
  destruct Hr as [s Hnone | p rest rest' Hleft Hrest].
  - apply replaced_none. intros [|c' p] q Hq.
    + by apply (Hpre q).
    + injection Hq as -> Hq. by apply (Hnone p q).
  - apply (replaced_leftmost old new (c :: p)); [| done].
    intros [|c' p'] q' Hq.
    + by destruct (Hpre q').
    + injection Hq as -> Hq. simpl. apply Hleft in Hq. lia.
Qed.

Lemma replace_go_skip old new n s :
  replace_go old new n s = replace_go old new 0 (drop n s).
Proof.
  revert n. induction s as [|c s IH]; intros [|n]; simpl; done.
Qed.

Lemma replace_go_replaced old new s :
  old ≠ [] → replaced old new s (replace_go old new 0 s).
Proof.
  intros Hold.
  remember (length s) as n eqn:Hn.
  revert s Hn. induction (lt_wf n) as [n _ IH]. intros s ->.
  destruct s as [|c s].
  { apply replaced_none. intros p q Hq. symmetry in Hq.
    apply app_eq_nil in Hq as [_ Hq]. apply app_eq_nil in Hq as [Hq _].
    contradiction. }
  cbn [replace_go]. destruct (startswith (c :: s) old) eqn:Hsw.
  - apply startswith_spec in Hsw as [q Hq].
    destruct old as [|a old]; [done |]. injection Hq as <- ->.
    rewrite replace_go_skip.
    replace (length (c :: old) - 1) with (length old) by (simpl; lia).
    rewrite drop_app_length.
    apply (replaced_leftmost (c :: old) new [] q).
    + intros; simpl; lia.
    + apply (IH (length q)); [| done]. simpl. rewrite length_app. lia.
  - apply replaced_cons; [done |].
    apply (IH (length s)); [simpl; lia | done].
Qed.

(** C6's reading of [str.replace]. *)
Lemma replace_replaced s old new :
  old ≠ [] → replaced old new s (replace s old new).
Proof.
  intros Hold. unfold replace. destruct old; [done |].
  by apply replace_go_replaced.
Qed.

(** The description leaves no choice: it has one result. *)
Lemma replaced_functional old new s r1 r2 :
  old ≠ [] → replaced old new s r1 → replaced old new s r2 → r1 = r2.
Proof.
  intros Hold H1. revert r2.
  induction H1 as [s Hnone | p rest rest' Hleft Hrest IH]; intros r2 H2.
  - inversion H2 as [s' Hnone' | p' rest2 rest2' Hleft' Hrest']; subst; [done |].
    by destruct (Hnone p' rest2).
  - inversion H2 as [s' Hnone' | p' rest2 rest2' Hleft' Hrest' Heq]; subst.
    + by destruct (Hnone' p rest).
    + assert (length p = length p') as Hlen.
      { apply Nat.le_antisymm; [by apply (Hleft p' rest2) |].
        by apply (Hleft' p rest). }
      apply app_inj_1 in Heq as [-> Heq]; [| done].
      apply app_inv_head in Heq as ->.
      by rewrite (IH _ Hrest').
Qed.

End replace_facts.

(** ** Paths: fields and components *)

Section path_facts.
Import pystring.

Lemma split_nonempty sep s : split sep s ≠ [].
Proof.
  destruct s as [|c s]; simpl; [done |].
  destruct (bool_decide (c = sep)); [done |].
  by destruct (split sep s).
Qed.

(** A field of [split] has no separator in it. *)
Lemma split_fields sep s : Forall (λ f, sep ∉ f) (split sep s).
Proof.
  induction s as [|c s IH]; simpl.
  - constructor; [apply not_elem_of_nil | constructor].
  - case_bool_decide as Hc.
    + constructor; [apply not_elem_of_nil | done].
    + destruct (split sep s) as [|f fs].
      * constructor; [| constructor].
        intros [->|H]%elem_of_cons; [done | by apply not_elem_of_nil in H].
      * apply Forall_cons in IH as [Hf Hfs]. constructor; [| done].
        intros [->|H]%elem_of_cons; done.
Qed.

Lemma split_app sep s1 s2 :
  split sep (s1 ++ sep :: s2) = split sep s1 ++ split sep s2.
Proof.
  induction s1 as [|c s1 IH]; simpl.
  - by rewrite bool_decide_eq_true_2.
  - case_bool_decide; [by rewrite IH |].
    rewrite IH. destruct (split sep s1) eqn:E; [| done].
    by destruct (split_nonempty sep s1).
Qed.

(** A component of a path is a name: not empty, and free of
    slashes. *)
Definition is_name (x : pystr) : Prop := x ≠ [] ∧ SLASH ∉ x.

Lemma components_names cwd p : Forall is_name (posixpath.components cwd p).
Proof.
  unfold posixpath.components. apply Forall_forall. intros x Hx.
  apply list_elem_of_filter in Hx as [Hne Hx]. split; [done |].
  pose proof (split_fields SLASH (posixpath.abspath cwd p)) as Hf.
  rewrite Forall_forall in Hf. by apply Hf.
Qed.

Lemma startswith_slash_name x : is_name x → startswith x [SLASH] = false.
Proof.
  intros [Hne Hsl]. destruct x as [|c x]; [done |]. cbn [startswith].
  rewrite andb_true_r. apply bool_decide_eq_false. intros <-.
  apply Hsl. by left.
Qed.

Lemma join2_nonempty path b : path ≠ [] → posixpath.join2 path b ≠ [].
Proof.
  intros Hp. unfold posixpath.join2.
  destruct (startswith b [SLASH]) eqn:Hb.
  - destruct b; [done | done].
  - destruct (_ || _); intros [H _]%app_eq_nil; done.
Qed.

Lemma join_nonempty a p : a ≠ [] → posixpath.join a p ≠ [].
Proof.
  unfold posixpath.join. revert a.
  induction p as [|b p IH]; intros a Ha; simpl; [done |].
  by apply IH, join2_nonempty.
Qed.

Lemma relpath_is_Some cwd path start :
  path ≠ [] → is_Some (posixpath.relpath cwd path start).
Proof.
  intros Hp. unfold posixpath.relpath. destruct path; [done |].
  destruct (_ ++ _); eauto.
Qed.

Lemma relpath_nonempty cwd path start r :
  posixpath.relpath cwd path start = Some r → r ≠ [].
Proof.
  unfold posixpath.relpath. destruct path as [|c path]; [done |].
  destruct (_ ++ _) as [|a p] eqn:E.
  - by intros [= <-].
  - intros [= <-]. apply join_nonempty.
    assert (a ∈ replicate
              (length (posixpath.components cwd start)
               - posixpath.common_prefix_len (posixpath.components cwd start)
                   (posixpath.components cwd (c :: path))) (str "..")
              ++ drop (posixpath.common_prefix_len
                         (posixpath.components cwd start)
                         (posixpath.components cwd (c :: path)))
                   (posixpath.components cwd (c :: path))) as Ha
      by (rewrite E; by left).
    apply elem_of_app in Ha as [Ha | Ha].
    + apply elem_of_replicate in Ha as [-> _]. done.
    + apply elem_of_suffix with (l2 := posixpath.components cwd (c :: path))
        in Ha; [| apply suffix_drop].
      pose proof (components_names cwd (c :: path)) as Hn.
      rewrite Forall_forall in Hn. by apply Hn.
Qed.

End path_facts.

(** ** Media links *)

(** C6.  With a source and an output media path given,
    [_replace_media_links] does not fail and leaves the world alone.
    The document it returns is the one it was given with every
    occurrence of [old_media_path] replaced and nothing else changed,
    where [old_media_path] is the relative path from the directory of
    the source file to the source media path, and what replaces it is
    [media_url] if that is a non-empty string, and otherwise the
    relative path from the directory of the output file to the output
    media path. *)
Theorem replace_media_links_replaces_old_path
    L self html_document source_filepath output_filepath w :
  source_media_path self ≠ [] →
  output_media_path self ≠ [] →
  ∃ old_media_path relative_media_path new_media_path result,
    posixpath.relpath (cwd L) (source_media_path self)
        (posixpath.dirname source_filepath) = Some old_media_path
    ∧ posixpath.relpath (cwd L) (output_media_path self)
        (posixpath.dirname output_filepath) = Some relative_media_path
    ∧ (∀ url, media_url self = Some url → url ≠ [] → new_media_path = url)
    ∧ (media_url self = None ∨ media_url self = Some [] →
       new_media_path = relative_media_path)
    ∧ _replace_media_links L self html_document source_filepath
        output_filepath w = (Ok result, w)
    ∧ replaced old_media_path new_media_path html_document result.
Proof.
  intros Hsrc Hout.
  destruct (relpath_is_Some (cwd L) (source_media_path self)
              (posixpath.dirname source_filepath) Hsrc) as [old Hold].
  destruct (relpath_is_Some (cwd L) (output_media_path self)
              (posixpath.dirname output_filepath) Hout) as [rel Hrel].
  exists old, rel, (or_default (media_url self) rel),
    (pystring.replace html_document old (or_default (media_url self) rel)).
  split; [done |]. split; [done |]. split; [| split; [| split]].
  - intros url -> Hurl. by destruct url.
  - by intros [-> | ->].
  - unfold _replace_media_links, relpath. rewrite Hrel, Hold. reflexivity.
  - apply replace_replaced. by apply relpath_nonempty in Hold.
Qed.

Lemma replace_media_links_replaces_old_path_witness :
  ∃ old_media_path relative_media_path new_media_path result,
    posixpath.relpath (cwd demo.sibling_libs)
        (source_media_path demo.docs_builder)
        (posixpath.dirname (str "docs/en-gb/page.md")) = Some old_media_path
    ∧ posixpath.relpath (cwd demo.sibling_libs)
        (output_media_path demo.docs_builder)
        (posixpath.dirname (str "build/en-gb/page.html"))
        = Some relative_media_path
    ∧ (∀ url, media_url demo.docs_builder = Some url → url ≠ [] →
         new_media_path = url)
    ∧ (media_url demo.docs_builder = None
       ∨ media_url demo.docs_builder = Some [] →
       new_media_path = relative_media_path)
    ∧ _replace_media_links demo.sibling_libs demo.docs_builder
        (str "<img src=../media/logo.png>") (str "docs/en-gb/page.md")
        (str "build/en-gb/page.html") demo.sibling_world
        = (Ok result, demo.sibling_world)
    ∧ replaced old_media_path new_media_path
        (str "<img src=../media/logo.png>") result.
Proof.
  apply (replace_media_links_replaces_old_path
           demo.sibling_libs demo.docs_builder
           (str "<img src=../media/logo.png>") (str "docs/en-gb/page.md")
           (str "build/en-gb/page.html") demo.sibling_world).
  - discriminate.
  - discriminate.
Defined.

(** ** Effects of the steps *)

(** A computation that leaves the world as it found it. *)
Definition pure_m {A} (m : M A) : Prop := ∀ w, (m w).2 = w.

Lemma pure_m_world {A} (m : M A) w r w1 : pure_m m → m w = (r, w1) → w1 = w.
Proof. intros Hm H. specialize (Hm w). by rewrite H in Hm. Qed.

Lemma pure_ret {A} (a : A) : pure_m (mret a).
Proof. by intros w. Qed.

Lemma pure_raise {A} e : pure_m (raise e : M A).
Proof. by intros w. Qed.

Lemma pure_lift {A} (r : result A) : pure_m (lift r).
Proof. by intros w. Qed.

Lemma pure_bind {A B} (m : M A) (f : A → M B) :
  pure_m m → (∀ a, pure_m (f a)) → pure_m (m ≫= f).
Proof.
  intros Hm Hf w. unfold mbind, M_bind.
  specialize (Hm w). destruct (m w) as [[a|e] w1]; simpl in *; subst; [| done].
  apply Hf.
Qed.

Lemma pure_try {A} (body handler : M A) :
  pure_m body → pure_m handler → pure_m (try_except_yaml_syntax body handler).
Proof.
  intros Hb Hh w. unfold try_except_yaml_syntax.
  specialize (Hb w). destruct (body w) as [[a|e] w1]; simpl in *; subst; [done |].
  destruct e; try done; apply Hh.
Qed.

Lemma pure_read_text L p : pure_m (read_text L p).
Proof.
  intros w. unfold read_text. destruct p; [done |].
  by destruct (files w !! _).
Qed.

Lemma pure_relpath L path start : pure_m (relpath L path start).
Proof. unfold relpath. destruct (posixpath.relpath _ _ _); by intros w. Qed.

Lemma pure_parse_markdown L filepath : pure_m (parse_markdown L filepath).
Proof.
  unfold parse_markdown. apply pure_bind.
  - apply pure_try; apply pure_bind; intros;
      auto using pure_read_text, pure_lift, pure_ret.
  - intros [metadata content].
    destruct (markdown_convert L content) as [html [meta|]]; apply pure_ret.
Qed.

Lemma pure_build_context_loop L found local_path local_context :
  pure_m (_build_context_loop L found local_path local_context).
Proof.
  revert local_context. induction found as [|p found IH]; intros ctx; simpl.
  - apply pure_ret.
  - destruct (pystring.startswith _ _); [| apply IH].
    apply pure_bind; [apply pure_read_text |]. intros text.
    apply pure_bind; [apply pure_lift |]. intros loaded.
    apply pure_bind; [apply pure_lift |]. intros ctx'. apply IH.
Qed.

Lemma pure_build_html L self source_filepath :
  pure_m (_build_html L self source_filepath).
Proof.
  unfold _build_html. apply pure_bind; [apply pure_parse_markdown |].
  intros [html metadata].
  apply pure_bind; [apply pure_build_context_loop |]. intros ctx.
  apply pure_bind; [apply pure_lift |]. intros doc. apply pure_ret.
Qed.

Lemma pure_replace_media_links L self doc src out :
  pure_m (_replace_media_links L self doc src out).
Proof.
  unfold _replace_media_links.
  apply pure_bind; [apply pure_relpath |]. intros rel.
  apply pure_bind; [apply pure_relpath |]. intros old. apply pure_ret.
Qed.

(** [_build_file] either fails before it writes, or writes one
    document at the output path it computed. *)
Lemma build_file_cases L self f w :
  (∃ e, _build_file L self f w = (Raise e, w))
  ∨ (∃ local_path doc,
       posixpath.relpath (cwd L) f (source_path self) = Some local_path
       ∧ _build_file L self f w
         = _write_file L doc (output_filepath_of self local_path) w).
Proof.
  unfold _build_file.
  destruct (_build_html L self f w) as [[doc|e] w1] eqn:Ehtml;
    pose proof (pure_m_world _ _ _ _ (pure_build_html L self f) Ehtml) as ->.
  2: { left. exists e. by rewrite (bind_raise _ _ _ _ _ Ehtml). }
  rewrite (bind_ok _ _ _ _ _ Ehtml).
  destruct (posixpath.relpath (cwd L) f (source_path self)) as [lp|] eqn:Erel.
  2: { left. exists ValueError. apply bind_raise. unfold relpath. by rewrite Erel. }
  rewrite (bind_ok _ _ w lp w) by (unfold relpath; by rewrite Erel).
  destruct (_replace_media_links L self doc f (output_filepath_of self lp) w)
    as [[doc'|e] w1] eqn:Emedia;
    pose proof (pure_m_world _ _ _ _ (pure_replace_media_links L self _ _ _) Emedia)
      as ->.
  2: { left. exists e. by rewrite (bind_raise _ _ _ _ _ Emedia). }
  right. exists lp, doc'. split; [done |].
  by rewrite (bind_ok _ _ _ _ _ Emedia).
Qed.

(** [_write_file] changes the files only by the one it writes. *)
Lemma write_file_cases L doc out w :
  (∃ e w1, _write_file L doc out w = (Raise e, w1) ∧ files w1 = files w)
  ∨ (∃ w1, _write_file L doc out w = (Ok (), w1)
           ∧ files w1 = <[resolve L out := doc]> (files w)).
Proof.
  unfold _write_file, mbind, M_bind, makedirs, write_text, print.
  destruct (posixpath.dirname out) as [|c d]; [left; by eexists _, _ |].
  destruct (forallb _ _); [| left; by eexists _, _].
  cbn [files dirs stdout stderr].
  destruct (_ && _ && _); [right; by eexists | left; by eexists _, _].
Qed.

(** ** The loop over the source files *)

Lemma for_each_cons_ok {A} (x : A) xs body w w1 :
  body x w = (Ok (), w1) → for_each (x :: xs) body w = for_each xs body w1.
Proof. intros H. simpl. by rewrite (bind_ok _ _ _ _ _ H). Qed.

Lemma for_each_app_ok {A} (xs ys : list A) body w w1 :
  for_each xs body w = (Ok (), w1) →
  for_each (xs ++ ys) body w = for_each ys body w1.
Proof.
  revert w. induction xs as [|x xs IH]; intros w H; simpl in *.
  - by injection H as ->.
  - apply bind_ok_inv in H as ([] & w0 & Hx & Hxs).
    rewrite (bind_ok _ _ _ _ _ Hx). by apply IH.
Qed.

(** C8.  When the loop of [_build_files] comes to a file whose base
    name is in [ignore_files], its step succeeds, prints the notice
    [Ignored] with the path, and changes nothing else: no file is
    written, no directory made.  The build then goes on with the files
    that follow. *)
Theorem build_files_skips_ignored L self pre f post w w1 :
  source_files L self = pre ++ f :: post →
  posixpath.basename f ∈ ignore_files self →
  for_each pre (_build_files_step L self) w = (Ok (), w1) →
  ∃ w2,
    _build_files_step L self f w1 = (Ok (), w2)
    ∧ files w2 = files w1 ∧ dirs w2 = dirs w1 ∧ stderr w2 = stderr w1
    ∧ stdout w2 = stdout w1 ++ [str "Ignored " ++ f]
    ∧ _build_files L self w = for_each post (_build_files_step L self) w2.
Proof.
  intros Hfound Hign Hpre.
  exists (World (files w1) (dirs w1) (stdout w1 ++ [str "Ignored " ++ f])
            (stderr w1)).
  assert (Hstep : _build_files_step L self f w1
                  = (Ok (), World (files w1) (dirs w1)
                              (stdout w1 ++ [str "Ignored " ++ f]) (stderr w1))).
  { unfold _build_files_step. by rewrite bool_decide_eq_true_2. }
  repeat (split; [done |]).
  unfold _build_files. rewrite Hfound.
  rewrite (for_each_app_ok _ _ _ _ _ Hpre).
  by apply for_each_cons_ok.
Qed.

Lemma build_files_skips_ignored_witness :
  ∃ w2,
    _build_files_step demo.site_libs demo.docs_builder (str "docs/README.md")
        (for_each [str "docs/index.md"]
           (_build_files_step demo.site_libs demo.docs_builder)
           demo.site_world).2
      = (Ok (), w2)
    ∧ files w2
      = files (for_each [str "docs/index.md"]
                 (_build_files_step demo.site_libs demo.docs_builder)
                 demo.site_world).2
    ∧ dirs w2
      = dirs (for_each [str "docs/index.md"]
                (_build_files_step demo.site_libs demo.docs_builder)
                demo.site_world).2
    ∧ stderr w2
      = stderr (for_each [str "docs/index.md"]
                  (_build_files_step demo.site_libs demo.docs_builder)
                  demo.site_world).2
    ∧ stdout w2
      = stdout (for_each [str "docs/index.md"]
                  (_build_files_step demo.site_libs demo.docs_builder)
                  demo.site_world).2
          ++ [str "Ignored " ++ str "docs/README.md"]
    ∧ _build_files demo.site_libs demo.docs_builder demo.site_world
      = for_each [str "docs/en/intro.md"]
          (_build_files_step demo.site_libs demo.docs_builder) w2.
Proof.
  apply (build_files_skips_ignored demo.site_libs demo.docs_builder
           [str "docs/index.md"] (str "docs/README.md")
           [str "docs/en/intro.md"] demo.site_world).
  - reflexivity.
  - apply list_elem_of_singleton. reflexivity.
  - vm_compute. reflexivity.
Defined.

(** ** Where the output is written *)

(** What a successful step of the loop does to the files. *)
Lemma build_files_step_files L self f w w1 :
  _build_files_step L self f w = (Ok (), w1) →
  ((posixpath.basename f ∈ ignore_files self) ∧ files w1 = files w)
  ∨ ((posixpath.basename f ∉ ignore_files self)
     ∧ ∃ local_path doc,
         posixpath.relpath (cwd L) f (source_path self) = Some local_path
         ∧ files w1
           = <[resolve L (output_filepath_of self local_path) := doc]> (files w)).
Proof.
  unfold _build_files_step. case_bool_decide as Hign.
  - intros [= <-]. by left.
  - intros Hstep. right. split; [done |].
    destruct (build_file_cases L self f w) as [[e He] | (lp & doc & Hrel & Hw)].
    { rewrite He in Hstep. discriminate Hstep. }
    rewrite Hw in Hstep. exists lp, doc. split; [done |].
    destruct (write_file_cases L doc (output_filepath_of self lp) w)
      as [(e & w2 & He & _) | (w2 & Hok & Hfiles)].
    + rewrite He in Hstep. discriminate Hstep.
    + rewrite Hok in Hstep. by injection Hstep as <-.
Qed.

Lemma for_each_build_files L self xs w w' :
  for_each xs (_build_files_step L self) w = (Ok (), w') →
  (∀ loc, is_Some (files w !! loc) → is_Some (files w' !! loc))
  ∧ (∀ f, f ∈ xs → posixpath.basename f ∉ ignore_files self →
       ∃ local_path,
         posixpath.relpath (cwd L) f (source_path self) = Some local_path
         ∧ is_Some (files w' !! resolve L (output_filepath_of self local_path)))
  ∧ (∀ loc, files w' !! loc ≠ files w !! loc →
       ∃ f local_path,
         f ∈ xs ∧ (posixpath.basename f ∉ ignore_files self)
         ∧ posixpath.relpath (cwd L) f (source_path self) = Some local_path
         ∧ loc = resolve L (output_filepath_of self local_path)).
Proof.
  revert w. induction xs as [|x xs IH]; intros w H; simpl in H.
  - injection H as <-. split; [done |]. split.
    + intros f Hf. by apply elem_of_nil in Hf.
    + intros loc Hloc. done.
  - apply bind_ok_inv in H as ([] & w1 & Hx & Hxs).
    destruct (IH _ Hxs) as (Hgrow & Hall & Honly).
    apply build_files_step_files in Hx.
    assert (Hgrow1 : ∀ loc, is_Some (files w !! loc) → is_Some (files w1 !! loc)).
    { intros loc Hloc.
      destruct Hx as [[_ ->] | (_ & lp & doc & _ & ->)]; [done |].
      rewrite lookup_insert. case_decide; [by eexists | done]. }
    split; [| split].
    + intros loc Hloc. by apply Hgrow, Hgrow1.
    + intros f [-> | Hf]%elem_of_cons Hign; [| by apply Hall].
      destruct Hx as [[Hin _] | (_ & lp & doc & Hrel & Hfiles)]; [done |].
      exists lp. split; [done |]. apply Hgrow. rewrite Hfiles.
      rewrite lookup_insert_eq. by eexists.
    + intros loc Hloc.
      destruct (decide (files w1 !! loc = files w !! loc)) as [Heq | Hne].
      * rewrite <- Heq in Hloc.
        destruct (Honly loc Hloc) as (f & lp & Hf & Hign & Hrel & ->).
        exists f, lp. split; [by right | done].
      * destruct Hx as [[_ Hfiles] | (Hign & lp & doc & Hrel & Hfiles)].
        { by rewrite Hfiles in Hne. }
        exists x, lp. split; [by left |]. split; [done |]. split; [done |].
        rewrite Hfiles in Hne.
        destruct (decide (resolve L (output_filepath_of self lp) = loc))
          as [<- | Hother]; [done |].
        by rewrite lookup_insert_ne in Hne.
Qed.

(** ** The extension swap *)

(** The pattern [\.md$] matches at a position exactly when [.md]
    stands there, followed by the end of the string or by a newline
    that ends it. *)
Lemma md_end_match_here x :
  re.match_here md_end_pattern x =
    if pystring.startswith x (str ".md") && re.at_dollar (drop 3 x)
    then Some (re.MState 3 None)
    else None.
Proof.
  unfold re.match_here, md_end_pattern.
  destruct x as [|c1 [|c2 [|c3 x]]]; cbn;
    repeat (case_bool_decide; cbn); done.
Qed.

Lemma md_end_no_match_before c s :
  re.match_here md_end_pattern (c :: s ++ str ".md") = None.
Proof.
  rewrite md_end_match_here.
  destruct s as [|c2 [|c3 [|c4 [|c5 s]]]]; cbn;
    repeat (case_bool_decide; cbn); try done.
Qed.

(** [re.sub(r'\.md$', '.html', p)] on a path that ends in [.md]. *)
Lemma sub_md_end s :
  re.sub md_end_pattern [re.TText (str ".html")] (s ++ str ".md")
  = s ++ str ".html".
Proof.
  unfold re.sub. induction s as [|c s IH]; [reflexivity |].
  change ((c :: s) ++ str ".md") with (c :: s ++ str ".md").
  cbn [re.sub_go]. rewrite md_end_no_match_before. by rewrite IH.
Qed.

(** ** Relative paths below a directory *)

Lemma common_prefix_len_app l r :
  posixpath.common_prefix_len l (l ++ r) = length l.
Proof.
  induction l as [|a l IH]; simpl; [by destruct r |].
  by rewrite bool_decide_eq_true_2, IH.
Qed.

Lemma endswith_slash_name x : is_name x → pystring.endswith x [SLASH] = false.
Proof.
  intros [Hne Hsl]. unfold pystring.endswith.
  destruct (reverse x) as [|c r] eqn:E.
  { apply (f_equal reverse) in E. rewrite reverse_involutive in E. done. }
  change (reverse [SLASH]) with [SLASH]. cbn [pystring.startswith].
  rewrite andb_true_r. apply bool_decide_eq_false. intros <-.
  apply Hsl. apply elem_of_reverse. rewrite E. by left.
Qed.

Lemma endswith_slash_app s x :
  x ≠ [] → pystring.endswith (s ++ x) [SLASH] = pystring.endswith x [SLASH].
Proof.
  intros Hx. unfold pystring.endswith. rewrite reverse_app.
  destruct (reverse x) as [|c r] eqn:E.
  { apply (f_equal reverse) in E. rewrite reverse_involutive in E. done. }
  reflexivity.
Qed.

(** Joining names puts one slash between them. *)
Lemma join2_names pre b c :
  is_name b → is_name c →
  posixpath.join2 (pre ++ b) c = (pre ++ b ++ [SLASH]) ++ c.
Proof.
  intros Hb Hc. unfold posixpath.join2. rewrite (startswith_slash_name c Hc).
  rewrite bool_decide_eq_false_2
    by (destruct Hb as [Hb _]; intros [_ H]%app_eq_nil; done).
  rewrite endswith_slash_app by apply Hb.
  rewrite (endswith_slash_name b Hb). cbn. by rewrite <- !app_assoc.
Qed.

Lemma foldl_join2_names pre b q :
  Forall is_name (b :: q) →
  foldl posixpath.join2 (pre ++ b) q = pre ++ pystring.join [SLASH] (b :: q).
Proof.
  revert pre b. induction q as [|c q IHq]; intros pre b Hn; [reflexivity |].
  apply Forall_cons in Hn as [Hb Hn].
  pose proof Hn as Hn'. apply Forall_cons in Hn' as [Hc Hq].
  cbn [foldl]. rewrite (join2_names pre b c Hb Hc).
  rewrite (IHq _ _ Hn). cbn [pystring.join].
  destruct q; by rewrite <- !app_assoc.
Qed.

Lemma join_names a p :
  Forall is_name (a :: p) →
  posixpath.join a p = pystring.join [SLASH] (a :: p).
Proof. intros Hn. apply (foldl_join2_names [] a p Hn). Qed.

(** A path whose components continue those of [start] is, relative to
    [start], the names that follow, joined. *)
Lemma relpath_below cwd f start rest :
  f ≠ [] → rest ≠ [] →
  posixpath.components cwd f = posixpath.components cwd start ++ rest →
  posixpath.relpath cwd f start = Some (pystring.join [SLASH] rest).
Proof.
  intros Hf Hrest Hcomps.
  pose proof (components_names cwd f) as Hn. rewrite Hcomps in Hn.
  apply Forall_app in Hn as [_ Hn].
  unfold posixpath.relpath. destruct f as [|c f]; [done |].
  rewrite Hcomps, common_prefix_len_app, Nat.sub_diag, drop_app_length.
  cbn [replicate app]. destruct rest as [|a p]; [done |].
  by rewrite join_names.
Qed.

(** What [join] puts before a relative second argument. *)
Definition join_prefix (path : pystr) : pystr :=
  if bool_decide (path = []) || pystring.endswith path [SLASH]
  then path else path ++ [SLASH].

Lemma join_relative path b :
  pystring.startswith b [SLASH] = false →
  posixpath.join path [b] = join_prefix path ++ b.
Proof.
  intros Hb. unfold posixpath.join, join_prefix. cbn [foldl].
  unfold posixpath.join2. rewrite Hb.
  destruct (_ || _); [done |]. by rewrite <- app_assoc.
Qed.

Lemma pystring_join_snoc_ext sep ds x e :
  pystring.join sep (ds ++ [x ++ e]) = pystring.join sep (ds ++ [x]) ++ e.
Proof.
  induction ds as [|d ds IH]; [reflexivity |].
  cbn [app pystring.join]. rewrite IH.
  destruct ds; cbn [app]; by rewrite <- !app_assoc.
Qed.

Lemma startswith_slash_app_name d s :
  is_name d → pystring.startswith (d ++ s) [SLASH] = false.
Proof.
  intros Hd. pose proof (startswith_slash_name d Hd) as H.
  destruct d as [|c d]; [by destruct Hd |]. exact H.
Qed.

Lemma startswith_slash_join ds y :
  Forall is_name ds → pystring.startswith y [SLASH] = false →
  pystring.startswith (pystring.join [SLASH] (ds ++ [y])) [SLASH] = false.
Proof.
  intros Hds Hy. destruct ds as [|d ds]; [done |].
  apply Forall_cons in Hds as [Hd _]. cbn [app pystring.join].
  destruct (ds ++ [y]) eqn:E; [by destruct ds |].
  by apply startswith_slash_app_name.
Qed.

Lemma startswith_slash_ext name e :
  SLASH ∉ name → pystring.startswith e [SLASH] = false → e ≠ [] →
  pystring.startswith (name ++ e) [SLASH] = false.
Proof.
  intros Hname He Hne. destruct name as [|c name]; [done |].
  cbn [app pystring.startswith]. rewrite andb_true_r.
  apply bool_decide_eq_false. intros <-. apply Hname. by left.
Qed.

(** The output path of a file that lies [ds] and [name.md] below the
    source path: the same names below the output path, with the
    extension swapped. *)
Lemma output_filepath_mirrors L self f ds name :
  f ≠ [] →
  resolve L f = resolve L (source_path self) ++ ds ++ [name ++ str ".md"] →
  posixpath.relpath (cwd L) f (source_path self)
    = Some (pystring.join [SLASH] (ds ++ [name ++ str ".md"]))
  ∧ output_filepath_of self (pystring.join [SLASH] (ds ++ [name ++ str ".md"]))
    = posixpath.join (output_path self)
        [pystring.join [SLASH] (ds ++ [name ++ str ".html"])].
Proof.
  intros Hf Hres.
  pose proof (components_names (cwd L) f) as Hn.
  unfold resolve in Hres. rewrite Hres in Hn.
  apply Forall_app in Hn as [_ Hn]. apply Forall_app in Hn as [Hds Hlast].
  apply Forall_cons in Hlast as [[_ Hlast] _].
  assert (Hname : SLASH ∉ name).
  { intros H. apply Hlast. apply elem_of_app. by left. }
  split.
  - apply relpath_below; [done | | done]. by destruct ds.
  - unfold output_filepath_of.
    rewrite !join_relative
      by (apply startswith_slash_join; [done |];
          by apply startswith_slash_ext).
    rewrite !pystring_join_snoc_ext, !app_assoc. apply sub_md_end.
Qed.

(** ** Normalised paths *)

Lemma split_name x : SLASH ∉ x → pystring.split SLASH x = [x].
Proof.
  induction x as [|c x IH]; intros Hx; [reflexivity |].
  cbn [pystring.split].
  rewrite bool_decide_eq_false_2 by (intros ->; apply Hx; by left).
  rewrite IH; [done |]. intros H. apply Hx. by right.
Qed.

Lemma pystring_join_cons sep c c' cs :
  pystring.join sep (c :: c' :: cs) = c ++ sep ++ pystring.join sep (c' :: cs).
Proof. reflexivity. Qed.

Lemma split_join_names cs :
  Forall is_name cs → cs ≠ [] →
  pystring.split SLASH (pystring.join [SLASH] cs) = cs.
Proof.
  induction cs as [|c cs IH]; intros Hn Hne; [done |].
  apply Forall_cons in Hn as [[_ Hc] Hn].
  destruct cs as [|c' cs]; [by apply split_name |].
  rewrite pystring_join_cons. change ([SLASH] ++ ?s) with (SLASH :: s).
  rewrite split_app, split_name by done. by rewrite IH.
Qed.

Lemma filter_names cs : Forall is_name cs → filter (λ x, x ≠ []) cs = cs.
Proof.
  induction cs as [|c cs IH]; intros Hn; [done |].
  apply Forall_cons in Hn as [[Hc _] Hn].
  rewrite filter_cons_True by done. by rewrite IH.
Qed.

(** The components of a rooted path written as slashes and names are
    the names. *)
Lemma components_of_rooted k cs :
  Forall is_name cs →
  filter (λ x, x ≠ [])
    (pystring.split SLASH (replicate k SLASH ++ pystring.join [SLASH] cs)) = cs.
Proof.
  intros Hn. induction k as [|k IH].
  - cbn [replicate app]. destruct cs as [|c cs]; [reflexivity |].
    rewrite split_join_names by done. by apply filter_names.
  - cbn [replicate app pystring.split].
    rewrite bool_decide_eq_true_2 by done.
    rewrite filter_cons_False by (intros H; by apply H). exact IH.
Qed.

(** A name that is neither [.] nor [..]. *)
Definition is_plain (x : pystr) : Prop :=
  is_name x ∧ x ≠ str "." ∧ x ≠ str "..".

Lemma norm_step_plain stack comp :
  Forall is_plain stack → SLASH ∉ comp →
  posixpath.norm_step true stack comp
  = if bool_decide (comp = []) || bool_decide (comp = str ".") then stack
    else if bool_decide (comp = str "..") then tail stack
    else comp :: stack.
Proof.
  intros Hst Hc. unfold posixpath.norm_step.
  destruct (bool_decide (comp = []) || bool_decide (comp = str ".")); [done |].
  case_bool_decide as Hdd; cbn [negb orb andb]; [| done].
  destruct stack as [|top stack]; [done |].
  apply Forall_cons in Hst as [(_ & _ & Htop) _].
  cbn [head]. rewrite bool_decide_eq_false_2; [done |].
  by intros [= ->].
Qed.

Lemma foldl_norm_step_plain stack comps :
  Forall is_plain stack → Forall (λ f, SLASH ∉ f) comps →
  Forall is_plain (foldl (posixpath.norm_step true) stack comps).
Proof.
  revert stack. induction comps as [|comp comps IH]; intros stack Hst Hc;
    [done |].
  apply Forall_cons in Hc as [Hcomp Hc]. cbn [foldl]. apply IH; [| done].
  rewrite norm_step_plain by done.
  destruct (bool_decide (comp = [])) eqn:E1; [done |].
  destruct (bool_decide (comp = str ".")) eqn:E2; [done |]. cbn [orb].
  destruct (bool_decide (comp = str "..")) eqn:E3.
  - destruct stack; [done |]. by apply Forall_cons in Hst as [_ ?].
  - apply bool_decide_eq_false in E1, E2, E3. constructor; [| done].
    repeat split; done.
Qed.

(** Pushing plain names: nothing is dropped or popped. *)
Lemma foldl_norm_step_push stack names :
  Forall is_plain stack → Forall is_plain names →
  foldl (posixpath.norm_step true) stack names = reverse names ++ stack.
Proof.
  revert stack. induction names as [|x names IH]; intros stack Hst Hn;
    [done |].
  apply Forall_cons in Hn as [Hx Hn]. cbn [foldl].
  pose proof Hx as ([Hne Hsl] & Hd & Hdd).
  rewrite norm_step_plain by done.
  rewrite !bool_decide_eq_false_2 by done. cbn [orb].
  rewrite IH by (try constructor; done).
  by rewrite reverse_cons, <- app_assoc.
Qed.

(** The path [abspath] normalises. *)
Definition full_path (cwd p : pystr) : pystr :=
  if posixpath.isabs p then p else posixpath.join cwd [p].

Lemma full_path_isabs cwd p :
  posixpath.isabs cwd = true → posixpath.isabs (full_path cwd p) = true.
Proof.
  intros Hcwd. unfold full_path.
  destruct (posixpath.isabs p) eqn:Hp; [done |].
  unfold posixpath.join. cbn [foldl]. unfold posixpath.join2.
  unfold posixpath.isabs in Hp. rewrite Hp.
  destruct cwd as [|c cwd]; [done |].
  destruct (_ || _); exact Hcwd.
Qed.

Lemma norm_comps_plain path :
  posixpath.isabs path = true → Forall is_plain (posixpath.norm_comps path).
Proof.
  intros Habs. unfold posixpath.norm_comps. rewrite Habs.
  apply Forall_reverse, foldl_norm_step_plain; [constructor |].
  apply split_fields.
Qed.

Lemma plain_names cs : Forall is_plain cs → Forall is_name cs.
Proof. intros H. eapply Forall_impl; [exact H |]. by intros x [? _]. Qed.

(** With an absolute working directory, the components of a path are
    the names its normalisation keeps. *)
Lemma components_norm_comps cwd p :
  posixpath.isabs cwd = true →
  posixpath.components cwd p = posixpath.norm_comps (full_path cwd p).
Proof.
  intros Hcwd. pose proof (full_path_isabs cwd p Hcwd) as Habs.
  unfold posixpath.components, posixpath.abspath. fold (full_path cwd p).
  pose proof (plain_names _ (norm_comps_plain _ Habs)) as Hn.
  unfold posixpath.normpath.
  destruct (full_path cwd p) as [|c rest] eqn:E; [done |].
  assert (∃ k, posixpath.initial_slashes (c :: rest) = S k) as [k Hk].
  { unfold posixpath.initial_slashes. unfold posixpath.isabs in Habs.
    rewrite Habs. destruct (_ && _); eauto. }
  rewrite Hk. cbn [replicate app].
  change (SLASH :: replicate k SLASH ++ ?s) with (replicate (S k) SLASH ++ s).
  by apply components_of_rooted.
Qed.

Lemma components_plain cwd p :
  posixpath.isabs cwd = true → Forall is_plain (posixpath.components cwd p).
Proof.
  intros Hcwd. rewrite components_norm_comps by done.
  apply norm_comps_plain. by apply full_path_isabs.
Qed.

(** ** When two paths are the same place *)

Lemma common_prefix_len_le l1 l2 :
  posixpath.common_prefix_len l1 l2 ≤ length l1
  ∧ posixpath.common_prefix_len l1 l2 ≤ length l2.
Proof.
  revert l2. induction l1 as [|a l1 IH]; intros [|b l2]; simpl; try lia.
  case_bool_decide; [| lia]. destruct (IH l2). lia.
Qed.

Lemma common_prefix_len_full l1 l2 :
  length l1 ≤ posixpath.common_prefix_len l1 l2 →
  length l2 ≤ posixpath.common_prefix_len l1 l2 →
  l1 = l2.
Proof.
  revert l2. induction l1 as [|a l1 IH]; intros [|b l2]; simpl; try lia;
    [done |].
  case_bool_decide as Hab; [| lia]. intros H1 H2. subst b. f_equal.
  apply IH; lia.
Qed.

Lemma pystring_join_not_dot cs :
  Forall is_name cs → str "." ∉ cs → pystring.join [SLASH] cs ≠ str ".".
Proof.
  intros Hn Hdot. destruct cs as [|c [|c' cs]].
  - done.
  - cbn. intros ->. apply Hdot. by left.
  - rewrite pystring_join_cons. apply Forall_cons in Hn as [[Hc _] _].
    destruct c as [|x [|y c]]; [done | | done].
    cbn. discriminate.
Qed.

(** [relpath(path, start) == '.'] says that the two paths have the same
    components. *)
Lemma relpath_dot_iff cwd path start :
  posixpath.isabs cwd = true → path ≠ [] →
  posixpath.relpath cwd path start = Some (str ".")
  ↔ posixpath.components cwd path = posixpath.components cwd start.
Proof.
  intros Hcwd Hpath. unfold posixpath.relpath.
  destruct path as [|c path]; [done |].
  set (pl := posixpath.components cwd (c :: path)).
  set (sl := posixpath.components cwd start).
  destruct (common_prefix_len_le sl pl) as [Hle1 Hle2].
  split.
  - destruct (replicate _ _ ++ drop _ pl) as [|a p] eqn:E.
    + intros _. apply app_eq_nil in E as [E1 E2].
      apply (f_equal length) in E1, E2.
      rewrite length_replicate in E1. rewrite length_drop in E2.
      symmetry. apply common_prefix_len_full; simpl in *; lia.
    + intros [= Hdot]. exfalso.
      assert (Hall : Forall is_name (a :: p) ∧ str "." ∉ a :: p).
      { rewrite <- E. split.
        - apply Forall_app. split.
          + apply Forall_replicate. split; [done |].
            intros [H|H]%elem_of_cons; [done |].
            apply elem_of_cons in H as [H|H]; [done |].
            by apply elem_of_nil in H.
          + apply Forall_drop, plain_names, components_plain. done.
        - intros [H|H]%elem_of_app.
          + apply elem_of_replicate in H as [H _]. done.
          + apply elem_of_suffix with (l2 := pl) in H; [| apply suffix_drop].
            pose proof (components_plain cwd (c :: path) Hcwd) as Hp.
            rewrite Forall_forall in Hp. by destruct (Hp _ H) as (_ & ? & _). }
      destruct Hall as [Hn Hnd]. rewrite join_names in Hdot by done.
      by apply (pystring_join_not_dot (a :: p)).
  - intros Heq. fold pl sl. rewrite Heq.
    replace (posixpath.common_prefix_len sl sl) with (length sl)
      by (rewrite <- (app_nil_r sl) at 3; by rewrite common_prefix_len_app).
    by rewrite Nat.sub_diag, drop_all.
Qed.

(** ** Copying the media *)

(** The world after [print_stderr]. *)
Definition warned (w : world) (msg : pystr) : world :=
  World (files w) (dirs w) (stdout w) (stderr w ++ [msg]).

(** When the source media path is not a directory, [_copy_media]
    returns normally; it writes one warning to the standard error
    stream, and files, directories and standard output stay as they
    were. *)
Theorem copy_media_missing_directory_warns L self w :
  isdir L (source_media_path self) w = (Ok false, w) →
  _copy_media L self w
  = (Ok (), warned w (str "Warning: Media directory not found at "
                        ++ source_media_path self ++ str ".")).
Proof.
  intros Hdir. unfold _copy_media. by rewrite (bind_ok _ _ _ _ _ Hdir).
Qed.

Lemma copy_media_missing_directory_warns_witness :
  _copy_media demo.sibling_libs demo.docs_builder demo.sibling_world
  = (Ok (), warned demo.sibling_world
              (str "Warning: Media directory not found at "
                 ++ source_media_path demo.docs_builder ++ str ".")).
Proof.
  apply (copy_media_missing_directory_warns
           demo.sibling_libs demo.docs_builder demo.sibling_world).
  vm_compute. reflexivity.
Defined.

Lemma isdir_true_nonempty L p w w1 : isdir L p w = (Ok true, w1) → p ≠ [].
Proof. unfold isdir. intros [= H _] ->. done. Qed.

(** When the source media directory exists and the output media path
    names the same place, [_copy_media] does nothing at all. *)
Theorem copy_media_same_place_is_noop L self w :
  posixpath.isabs (cwd L) = true →
  isdir L (source_media_path self) w = (Ok true, w) →
  resolve L (source_media_path self) = resolve L (output_media_path self) →
  _copy_media L self w = (Ok (), w).
Proof.
  intros Hcwd Hdir Hsame. unfold _copy_media.
  rewrite (bind_ok _ _ _ _ _ Hdir).
  pose proof (isdir_true_nonempty _ _ _ _ Hdir) as Hne.
  apply (relpath_dot_iff (cwd L) _ (output_media_path self) Hcwd Hne) in Hsame.
  unfold relpath. rewrite Hsame. reflexivity.
Qed.

(** When the source media directory exists and the output media path
    names another place, [_copy_media] calls [mergetree] on the two
    paths and then prints the notice. *)
Theorem copy_media_other_place_copies L self w :
  posixpath.isabs (cwd L) = true →
  isdir L (source_media_path self) w = (Ok true, w) →
  resolve L (source_media_path self) ≠ resolve L (output_media_path self) →
  _copy_media L self w
  = (mergetree L (source_media_path self) (output_media_path self);;
     print (str "Copied " ++ source_media_path self
              ++ str " to " ++ output_media_path self)) w.
Proof.
  intros Hcwd Hdir Hdiff. unfold _copy_media.
  rewrite (bind_ok _ _ _ _ _ Hdir).
  pose proof (isdir_true_nonempty _ _ _ _ Hdir) as Hne.
  destruct (relpath_is_Some (cwd L) (source_media_path self)
              (output_media_path self) Hne) as [rel Hrel].
  assert (rel ≠ str ".") as Hnd.
  { intros ->. apply Hdiff. by apply (relpath_dot_iff (cwd L) _ _ Hcwd Hne). }
  unfold relpath. rewrite Hrel.
  rewrite (bind_ok _ _ w rel w) by done.
  by rewrite bool_decide_eq_false_2.
Qed.

(** A builder that would write the media where they already are. *)
Definition in_place_builder : Builder := {|
  source_path := str "docs";
  source_media_path := str "docs/media";
  output_path := str "docs";
  output_media_path := str "./docs/../docs/media/";
  template := demo.title_template;
  media_url := None;
  no_link_extensions := false;
  ignore_files := []
|}.

Lemma copy_media_same_place_is_noop_witness :
  _copy_media demo.site_libs in_place_builder demo.site_world
  = (Ok (), demo.site_world).
Proof.
  apply (copy_media_same_place_is_noop
           demo.site_libs in_place_builder demo.site_world).
  - reflexivity.
  - vm_compute. reflexivity.
  - vm_compute. reflexivity.
Defined.

Lemma copy_media_other_place_copies_witness :
  _copy_media demo.site_libs demo.docs_builder demo.site_world
  = (mergetree demo.site_libs (source_media_path demo.docs_builder)
       (output_media_path demo.docs_builder);;
     print (str "Copied " ++ source_media_path demo.docs_builder
              ++ str " to " ++ output_media_path demo.docs_builder))
      demo.site_world.
Proof.
  apply (copy_media_other_place_copies
           demo.site_libs demo.docs_builder demo.site_world).
  - reflexivity.
  - vm_compute. reflexivity.
  - vm_compute. discriminate.
Defined.

(** ** The whole loop *)

(** When [_build_files] returns normally: every source file that is
    not ignored has a relative path below the source path, and there
    is a file at the output path computed from it; and every file that
    the loop changed or created is the output file of a source file
    that is not ignored. *)
Theorem build_files_writes_the_output_paths L self w w' :
  _build_files L self w = (Ok (), w') →
  (∀ f, f ∈ source_files L self →
        posixpath.basename f ∉ ignore_files self →
        ∃ local_path,
          posixpath.relpath (cwd L) f (source_path self) = Some local_path
          ∧ is_Some (files w' !! resolve L (output_filepath_of self local_path)))
  ∧ (∀ loc, files w' !! loc ≠ files w !! loc →
        ∃ f local_path,
          f ∈ source_files L self
          ∧ (posixpath.basename f ∉ ignore_files self)
          ∧ posixpath.relpath (cwd L) f (source_path self) = Some local_path
          ∧ loc = resolve L (output_filepath_of self local_path)).
Proof.
  intros H. by destruct (for_each_build_files L self _ _ _ H) as (_ & ? & ?).
Qed.

Lemma build_files_writes_the_output_paths_witness :
  (∀ f, f ∈ source_files demo.site_libs demo.docs_builder →
        posixpath.basename f ∉ ignore_files demo.docs_builder →
        ∃ local_path,
          posixpath.relpath (cwd demo.site_libs) f
            (source_path demo.docs_builder) = Some local_path
          ∧ is_Some
              (files (_build_files demo.site_libs demo.docs_builder
                        demo.site_world).2
                 !! resolve demo.site_libs
                      (output_filepath_of demo.docs_builder local_path)))
  ∧ (∀ loc,
        files (_build_files demo.site_libs demo.docs_builder
                 demo.site_world).2 !! loc
          ≠ files demo.site_world !! loc →
        ∃ f local_path,
          f ∈ source_files demo.site_libs demo.docs_builder
          ∧ (posixpath.basename f ∉ ignore_files demo.docs_builder)
          ∧ posixpath.relpath (cwd demo.site_libs) f
              (source_path demo.docs_builder) = Some local_path
          ∧ loc = resolve demo.site_libs
                    (output_filepath_of demo.docs_builder local_path)).
Proof.
  apply (build_files_writes_the_output_paths
           demo.site_libs demo.docs_builder demo.site_world).
  vm_compute. reflexivity.
Defined.

(** ** Joining names below a directory *)

Lemma norm_comps_app_names P names :
  posixpath.isabs P = true → Forall is_plain names → names ≠ [] →
  posixpath.norm_comps (P ++ SLASH :: pystring.join [SLASH] names)
  = posixpath.norm_comps P ++ names.
Proof.
  intros Habs Hn Hne. unfold posixpath.norm_comps.
  assert (posixpath.isabs (P ++ SLASH :: pystring.join [SLASH] names) = true)
    as ->.
  { destruct P; [done | exact Habs]. }
  rewrite Habs, split_app, foldl_app.
  rewrite (split_join_names names) by (by apply plain_names || done).
  rewrite foldl_norm_step_push; [| | done].
  - by rewrite reverse_app, reverse_involutive.
  - apply foldl_norm_step_plain; [constructor | apply split_fields].
Qed.

Lemma norm_comps_trailing_slash P :
  posixpath.isabs P = true →
  posixpath.norm_comps (P ++ [SLASH]) = posixpath.norm_comps P.
Proof.
  intros Habs. unfold posixpath.norm_comps.
  assert (posixpath.isabs (P ++ [SLASH]) = true) as ->.
  { destruct P; [done | exact Habs]. }
  rewrite Habs, split_app, foldl_app. reflexivity.
Qed.

Lemma endswith_slash_inv s :
  pystring.endswith s [SLASH] = true → ∃ s', s = s' ++ [SLASH].
Proof.
  unfold pystring.endswith. change (reverse [SLASH]) with [SLASH].
  intros H. apply startswith_spec in H as [q Hq].
  exists (reverse q). apply (f_equal reverse) in Hq.
  rewrite reverse_involutive in Hq. rewrite Hq.
  by rewrite reverse_app.
Qed.

(** Whatever [join] puts before a relative argument ends in a slash,
    unless it is empty. *)
Lemma join_prefix_cases path :
  (path = [] ∧ join_prefix path = [])
  ∨ (∃ s, path = s ++ [SLASH] ∧ join_prefix path = path)
  ∨ (path ≠ [] ∧ join_prefix path = path ++ [SLASH]).
Proof.
  unfold join_prefix. destruct path as [|c path]; [by left |]. right.
  cbn [bool_decide orb]. rewrite bool_decide_eq_false_2 by done. cbn [orb].
  destruct (pystring.endswith (c :: path) [SLASH]) eqn:E.
  - left. apply endswith_slash_inv in E as [s Hs]. by exists s.
  - by right.
Qed.

(** The names a rooted path normalises to. *)
Definition rooted_comps (P : pystr) : list pystr :=
  reverse (foldl (posixpath.norm_step true) [] (pystring.split SLASH P)).

Lemma norm_comps_rooted X :
  posixpath.isabs X = true → posixpath.norm_comps X = rooted_comps X.
Proof. intros H. unfold posixpath.norm_comps. by rewrite H. Qed.

Lemma rooted_comps_app_names P names :
  Forall is_plain names → names ≠ [] →
  rooted_comps (P ++ SLASH :: pystring.join [SLASH] names)
  = rooted_comps P ++ names.
Proof.
  intros Hn Hne. unfold rooted_comps. rewrite split_app, foldl_app.
  rewrite (split_join_names names) by (by apply plain_names || done).
  rewrite foldl_norm_step_push; [| | done].
  - by rewrite reverse_app, reverse_involutive.
  - apply foldl_norm_step_plain; [constructor | apply split_fields].
Qed.

Lemma rooted_comps_trailing_slash P :
  rooted_comps (P ++ [SLASH]) = rooted_comps P.
Proof. unfold rooted_comps. by rewrite split_app, foldl_app. Qed.

Lemma isabs_app_l a b :
  posixpath.isabs a = true → posixpath.isabs (a ++ b) = true.
Proof. by destruct a. Qed.

Lemma isabs_app_false a b :
  posixpath.isabs a = false → posixpath.isabs b = false →
  posixpath.isabs (a ++ b) = false.
Proof. intros Ha Hb. by destruct a. Qed.

(** The path that [abspath] normalises for [join(out, rel)] is the one
    for [out], a slash, and [rel]. *)
Lemma full_path_join cwd out rel :
  posixpath.isabs cwd = true → posixpath.isabs rel = false →
  ∃ P, full_path cwd (posixpath.join out [rel]) = P ++ SLASH :: rel
       ∧ (full_path cwd out = P ∨ full_path cwd out = P ++ [SLASH]).
Proof.
  intros Hcwd Hrel. rewrite (join_relative out rel Hrel). unfold full_path.
  destruct (posixpath.isabs out) eqn:Hout.
  - destruct (join_prefix_cases out) as [[-> _] | [(s & Hs & ->) | [Hne ->]]];
      [done | |].
    + rewrite (isabs_app_l _ _ Hout). exists s. rewrite Hs.
      split; [by rewrite <- app_assoc | by right].
    + rewrite (isabs_app_l _ _ (isabs_app_l _ _ Hout)). exists out.
      split; [by rewrite <- app_assoc | by left].
  - assert (posixpath.isabs (join_prefix out ++ rel) = false) as Hj.
    { destruct (join_prefix_cases out)
        as [[-> ->] | [(s & Hs & ->) | [Hne ->]]]; [done | |].
      - by apply isabs_app_false.
      - rewrite <- app_assoc. destruct out; [done | exact Hout]. }
    rewrite Hj, (join_relative cwd _ Hj), (join_relative cwd out Hout).
    destruct (join_prefix_cases out) as [[-> ->] | [(s & Hs & ->) | [Hne ->]]].
    + cbn [app]. rewrite app_nil_r.
      destruct (join_prefix_cases cwd)
        as [[-> _] | [(s & Hs & ->) | [Hne ->]]]; [done | |].
      * exists s. rewrite Hs. split; [by rewrite <- app_assoc | by right].
      * exists cwd. split; [by rewrite <- app_assoc | by right].
    + exists (join_prefix cwd ++ s). rewrite Hs.
      split; [by rewrite <- !app_assoc | right; by rewrite <- app_assoc].
    + exists (join_prefix cwd ++ out).
      split; [by rewrite <- !app_assoc | by left].
Qed.

Lemma isabs_join_names names :
  Forall is_plain names → names ≠ [] →
  posixpath.isabs (pystring.join [SLASH] names) = false.
Proof.
  intros Hn Hne. destruct names as [|n [|n' ns]]; [done | |];
    apply Forall_cons in Hn as [[Hname _] _].
  - by apply startswith_slash_name.
  - rewrite pystring_join_cons. by apply startswith_slash_app_name.
Qed.

(** Joining plain names to a path appends them to its components. *)
Lemma components_join_names cwd out names :
  posixpath.isabs cwd = true → Forall is_plain names → names ≠ [] →
  posixpath.components cwd (posixpath.join out [pystring.join [SLASH] names])
  = posixpath.components cwd out ++ names.
Proof.
  intros Hcwd Hn Hne. rewrite !components_norm_comps by done.
  rewrite !norm_comps_rooted by (by apply full_path_isabs).
  destruct (full_path_join cwd out (pystring.join [SLASH] names) Hcwd
              (isabs_join_names names Hn Hne)) as (P & -> & [-> | ->]).
  - by apply rooted_comps_app_names.
  - rewrite rooted_comps_trailing_slash. by apply rooted_comps_app_names.
Qed.

Lemma html_name_plain name : SLASH ∉ name → is_plain (name ++ str ".html").
Proof.
  intros Hname. repeat split.
  - by destruct name.
  - intros [H|H]%elem_of_app; [done |]. vm_compute in H.
    repeat (apply elem_of_cons in H as [H|H]; [discriminate H |]).
    by apply elem_of_nil in H.
  - intros H. apply (f_equal length) in H. rewrite length_app in H.
    simpl in H. lia.
  - intros H. apply (f_equal length) in H. rewrite length_app in H.
    simpl in H. lia.
Qed.

(** The output mirrors the source.  A source file that lies below
    the source path, in the directories [ds] and under the name
    [name.md], gets the output path that [join] makes of the output
    path and the same directories and [name.html]; and that path
    resolves to the place [ds], [name.html] below the output path. *)
Theorem output_path_mirrors_source L self f ds name :
  posixpath.isabs (cwd L) = true →
  f ≠ [] →
  resolve L f = resolve L (source_path self) ++ ds ++ [name ++ str ".md"] →
  ∃ local_path,
    posixpath.relpath (cwd L) f (source_path self) = Some local_path
    ∧ local_path = pystring.join [SLASH] (ds ++ [name ++ str ".md"])
    ∧ output_filepath_of self local_path
      = posixpath.join (output_path self)
          [pystring.join [SLASH] (ds ++ [name ++ str ".html"])]
    ∧ resolve L (output_filepath_of self local_path)
      = resolve L (output_path self) ++ ds ++ [name ++ str ".html"].
Proof.
  intros Hcwd Hf Hres.
  destruct (output_filepath_mirrors L self f ds name Hf Hres) as [Hrel Hout].
  eexists. split; [exact Hrel |]. split; [done |]. split; [exact Hout |].
  rewrite Hout. unfold resolve.
  pose proof (components_plain (cwd L) f Hcwd) as Hp.
  unfold resolve in Hres. rewrite Hres in Hp.
  apply Forall_app in Hp as [_ Hp]. apply Forall_app in Hp as [Hds Hlast].
  apply Forall_cons in Hlast as [([_ Hsl] & _) _].
  rewrite components_join_names; [done | done | | by destruct ds].
  apply Forall_app. split; [done |]. constructor; [| constructor].
  apply html_name_plain. intros H. apply Hsl. apply elem_of_app. by left.
Qed.

Lemma output_path_mirrors_source_witness :
  ∃ local_path,
    posixpath.relpath (cwd demo.site_libs) (str "docs/en/intro.md")
      (source_path demo.docs_builder) = Some local_path
    ∧ local_path = pystring.join [SLASH] ([str "en"] ++ [str "intro" ++ str ".md"])
    ∧ output_filepath_of demo.docs_builder local_path
      = posixpath.join (output_path demo.docs_builder)
          [pystring.join [SLASH] ([str "en"] ++ [str "intro" ++ str ".html"])]
    ∧ resolve demo.site_libs (output_filepath_of demo.docs_builder local_path)
      = resolve demo.site_libs (output_path demo.docs_builder)
          ++ [str "en"] ++ [str "intro" ++ str ".html"].
Proof.
  apply (output_path_mirrors_source demo.site_libs demo.docs_builder
           (str "docs/en/intro.md") [str "en"] (str "intro")).
  - reflexivity.
  - discriminate.
  - vm_compute. reflexivity.
Defined.

(** ** Errors *)

(** An exception other than the two YAML syntax errors is not caught:
    when [frontmatter.load] raises it, [parse_markdown] raises it too,
    and the Markdown parser is never run. *)
Theorem parse_markdown_propagates_other_errors L filepath w e w1 :
  frontmatter_load L filepath w = (Raise e, w1) →
  e ≠ ScannerError → e ≠ ParserError →
  parse_markdown L filepath w = (Raise e, w1).
Proof.
  intros Hload Hs Hp. unfold parse_markdown. apply bind_raise.
  unfold extract_front_matter, try_except_yaml_syntax. rewrite Hload.
  by destruct e.
Qed.

(** The loop of [_build_files] stops at the first file whose step
    raises: the exception leaves [_build_files], with the world as the
    failing step left it, and the files that follow are not looked
    at. *)
Theorem build_files_stops_at_first_error L self pre f post w w1 e w2 :
  source_files L self = pre ++ f :: post →
  for_each pre (_build_files_step L self) w = (Ok (), w1) →
  _build_files_step L self f w1 = (Raise e, w2) →
  _build_files L self w = (Raise e, w2).
Proof.
  intros Hfound Hpre Hstep. unfold _build_files. rewrite Hfound.
  rewrite (for_each_app_ok _ _ _ _ _ Hpre). simpl.
  by rewrite (bind_raise _ _ _ _ _ Hstep).
Qed.

(** When [_build_html] raises for a file (the file cannot be read, a
    [context.yaml] is broken, the template fails), [_build_file] raises
    the same exception and the world is untouched: no directory is
    made and nothing is written or printed. *)
Theorem build_file_error_writes_nothing L self f w e w1 :
  _build_html L self f w = (Raise e, w1) →
  _build_file L self f w = (Raise e, w).
Proof.
  intros H.
  pose proof (pure_m_world _ _ _ _ (pure_build_html L self f) H) as ->.
  unfold _build_file. by apply bind_raise.
Qed.

(** A template that raises makes [_build_html] raise, whatever the
    page. *)
Lemma build_html_template_error L self src w html metadata w1 ctx w2 e :
  parse_markdown L src w = (Ok (html, metadata), w1) →
  _build_context L self (posixpath.dirname src) w1 = (Ok ctx, w2) →
  template self (template_context ctx metadata html) = Raise e →
  _build_html L self src w = (Raise e, w2).
Proof.
  intros Hp Hc Ht. rewrite (build_html_unfold _ _ _ _ _ _ _ _ _ Hp Hc).
  by rewrite Ht.
Qed.

(** [makedirs] of an empty directory name fails: an output path
    without a directory part (an empty output path and a file at the
    top of the source tree) makes [_write_file] raise [OSError] before
    it writes. *)
Theorem write_file_bare_name_fails L html_document output_filepath w :
  posixpath.dirname output_filepath = [] →
  _write_file L html_document output_filepath w = (Raise OSError, w).
Proof. intros H. unfold _write_file, mbind, M_bind, makedirs. by rewrite H. Qed.

(** [relpath] refuses an empty path: with an empty output media path
    [_replace_media_links] raises [ValueError], also when a media URL
    is configured and the relative path would not be used. *)
Theorem replace_media_links_empty_output_media_path L self doc src out w :
  output_media_path self = [] →
  _replace_media_links L self doc src out w = (Raise ValueError, w).
Proof.
  intros H. unfold _replace_media_links, relpath. rewrite H. reflexivity.
Qed.

Lemma replace_media_links_run L self doc src out w old rel :
  posixpath.relpath (cwd L) (source_media_path self) (posixpath.dirname src)
    = Some old →
  posixpath.relpath (cwd L) (output_media_path self) (posixpath.dirname out)
    = Some rel →
  _replace_media_links L self doc src out w
  = (Ok (pystring.replace doc old (or_default (media_url self) rel)), w).
Proof.
  intros Hold Hrel. unfold _replace_media_links, relpath.
  rewrite Hrel, Hold. reflexivity.
Qed.

(** A document in which the old media path does not occur comes back
    unchanged. *)
Theorem replace_media_links_without_occurrence
    L self html_document source_filepath output_filepath w old_media_path :
  output_media_path self ≠ [] →
  posixpath.relpath (cwd L) (source_media_path self)
    (posixpath.dirname source_filepath) = Some old_media_path →
  (∀ p q, html_document ≠ p ++ old_media_path ++ q) →
  _replace_media_links L self html_document source_filepath output_filepath w
  = (Ok html_document, w).
Proof.
  intros Hout Hold Hnone.
  destruct (relpath_is_Some (cwd L) (output_media_path self)
              (posixpath.dirname output_filepath) Hout) as [rel Hrel].
  rewrite (replace_media_links_run _ _ _ _ _ _ _ _ Hold Hrel).
  do 2 f_equal.
  pose proof (relpath_nonempty _ _ _ _ Hold) as Hne.
  apply (replaced_functional old_media_path
           (or_default (media_url self) rel) html_document); [done | |].
  - by apply replace_replaced.
  - by apply replaced_none.
Qed.

(** Whether [old] occurs in [s]. *)
Fixpoint occurs_in (old s : pystr) : bool :=
  pystring.startswith s old
  || match s with
     | [] => false
     | _ :: s' => occurs_in old s'
     end.

Lemma occurs_in_false old s :
  occurs_in old s = false → ∀ p q, s ≠ p ++ old ++ q.
Proof.
  revert s. intros s Hocc p. revert s Hocc.
  induction p as [|c p IH]; intros s Hocc q Heq.
  - assert (pystring.startswith s old = true) as Hsw
      by (apply startswith_spec; by exists q).
    destruct s; simpl in Hocc; by rewrite Hsw in Hocc.
  - destruct s as [|c' s]; [done |]. injection Heq as -> Heq.
    simpl in Hocc. apply orb_false_elim in Hocc as [_ Hocc].
    by apply (IH s Hocc q).
Qed.

(** More builders for the examples. *)
Module cases.

(** A builder whose template always fails. *)
Definition failing_builder : Builder := {|
  source_path := str "docs";
  source_media_path := str "docs/media";
  output_path := str "build";
  output_media_path := str "build/media";
  template := λ _, Raise TemplateError;
  media_url := None;
  no_link_extensions := false;
  ignore_files := []
|}.

(** A builder without an output media path. *)
Definition no_media_builder : Builder := {|
  source_path := str "docs";
  source_media_path := str "docs/media";
  output_path := str "build";
  output_media_path := [];
  template := demo.title_template;
  media_url := Some (str "https://assets.example.com");
  no_link_extensions := false;
  ignore_files := []
|}.

End cases.

Lemma parse_markdown_propagates_other_errors_witness :
  parse_markdown demo.site_libs (str "docs/missing.md") demo.site_world
  = (Raise OSError, demo.site_world).
Proof.
  apply (parse_markdown_propagates_other_errors
           demo.site_libs (str "docs/missing.md") demo.site_world).
  - vm_compute. reflexivity.
  - discriminate.
  - discriminate.
Defined.

Lemma build_files_stops_at_first_error_witness :
  _build_files demo.site_libs cases.failing_builder demo.site_world
  = (Raise TemplateError, demo.site_world).
Proof.
  apply (build_files_stops_at_first_error
           demo.site_libs cases.failing_builder [] (str "docs/index.md")
           [str "docs/README.md"; str "docs/en/intro.md"]
           demo.site_world demo.site_world).
  - reflexivity.
  - reflexivity.
  - vm_compute. reflexivity.
Defined.

Lemma build_file_error_writes_nothing_witness :
  _build_file demo.site_libs cases.failing_builder (str "docs/index.md")
    demo.site_world
  = (Raise TemplateError, demo.site_world).
Proof.
  apply (build_file_error_writes_nothing
           demo.site_libs cases.failing_builder (str "docs/index.md")
           demo.site_world TemplateError demo.site_world).
  vm_compute. reflexivity.
Defined.

Lemma write_file_bare_name_fails_witness :
  _write_file demo.site_libs (str "<p>Welcome</p>") (str "index.html")
    demo.site_world
  = (Raise OSError, demo.site_world).
Proof.
  apply (write_file_bare_name_fails demo.site_libs). reflexivity.
Defined.

Lemma replace_media_links_empty_output_media_path_witness :
  _replace_media_links demo.site_libs cases.no_media_builder
    (str "<img src=media/logo.png>") (str "docs/index.md")
    (str "build/index.html") demo.site_world
  = (Raise ValueError, demo.site_world).
Proof.
  apply (replace_media_links_empty_output_media_path
           demo.site_libs cases.no_media_builder).
  reflexivity.
Defined.

Lemma replace_media_links_without_occurrence_witness :
  _replace_media_links demo.site_libs demo.docs_builder
    (str "<p>No pictures here</p>") (str "docs/en/intro.md")
    (str "build/en/intro.html") demo.site_world
  = (Ok (str "<p>No pictures here</p>"), demo.site_world).
Proof.
  apply (replace_media_links_without_occurrence
           demo.site_libs demo.docs_builder (str "<p>No pictures here</p>")
           (str "docs/en/intro.md") (str "build/en/intro.html")
           demo.site_world (str "../media")).
  - discriminate.
  - vm_compute. reflexivity.
  - apply occurs_in_false. vm_compute. reflexivity.
Defined.

(** ** Merging context files *)

Lemma dict_set_all_notin d kvs k :
  k ∉ kvs.*1 → dict_set_all d kvs !! k = d !! k.
Proof.
  unfold dict_set_all. revert d.
  induction kvs as [|[k' v'] kvs IH]; intros d Hk; [done |].
  cbn [foldl fst snd]. rewrite IH.
  - apply lookup_insert_ne. intros ->. apply Hk. by left.
  - intros H. apply Hk. by right.
Qed.

(** The last binding of a key is the one that stays. *)
Lemma dict_set_all_last d kvs1 k v kvs2 :
  k ∉ kvs2.*1 → dict_set_all d (kvs1 ++ (k, v) :: kvs2) !! k = Some v.
Proof.
  intros Hk. unfold dict_set_all. rewrite foldl_app. cbn [foldl fst snd].
  fold (dict_set_all d kvs1).
  fold (dict_set_all (<[k:=v]> (dict_set_all d kvs1)) kvs2).
  rewrite dict_set_all_notin by done. apply lookup_insert_eq.
Qed.

Lemma build_context_loop_app_ok L xs ys lp c w c1 w1 :
  _build_context_loop L xs lp c w = (Ok c1, w1) →
  _build_context_loop L (xs ++ ys) lp c w = _build_context_loop L ys lp c1 w1.
Proof.
  revert c w. induction xs as [|x xs IH]; intros c w H.
  - by injection H as -> ->.
  - cbn [app _build_context_loop] in *.
    destruct (pystring.startswith lp (posixpath.dirname x)); [| by apply IH].
    apply bind_ok_inv in H as (text & w2 & Hread & H).
    apply bind_ok_inv in H as (loaded & w3 & Hload & H).
    apply bind_ok_inv in H as (c' & w4 & Hupd & H).
    rewrite (bind_ok _ _ _ _ _ Hread), (bind_ok _ _ _ _ _ Hload),
      (bind_ok _ _ _ _ _ Hupd).
    by apply IH.
Qed.

Lemma build_context_loop_app_inv L xs ys lp c w ctx w' :
  _build_context_loop L (xs ++ ys) lp c w = (Ok ctx, w') →
  ∃ c1, _build_context_loop L xs lp c w = (Ok c1, w)
        ∧ _build_context_loop L ys lp c1 w = (Ok ctx, w').
Proof.
  intros H.
  destruct (_build_context_loop L xs lp c w) as [[c1|e] w1] eqn:E;
    pose proof (pure_m_world _ _ _ _ (pure_build_context_loop L xs lp c) E)
      as ->.
  - exists c1. split; [done |].
    by rewrite (build_context_loop_app_ok _ _ ys _ _ _ _ _ E) in H.
  - exfalso. remember w as w0 eqn:Hw0 in E at 2. clear Hw0.
    revert c w H E. induction xs as [|x xs IH]; intros c w H E.
    + discriminate E.
    + cbn [app _build_context_loop] in *.
      destruct (pystring.startswith lp (posixpath.dirname x));
        [| by apply (IH c w)].
      apply bind_ok_inv in H as (text & w2 & Hread & H).
      apply bind_ok_inv in H as (loaded & w3 & Hload & H).
      apply bind_ok_inv in H as (c' & w4 & Hupd & H).
      rewrite (bind_ok _ _ _ _ _ Hread), (bind_ok _ _ _ _ _ Hload),
        (bind_ok _ _ _ _ _ Hupd) in E.
      by apply (IH c' w4).
Qed.

(** Files whose directory name is no prefix of the document's are
    passed over without being opened. *)
Lemma build_context_loop_unmatched L xs lp c w :
  Forall (λ q, pystring.startswith lp (posixpath.dirname q) = false) xs →
  _build_context_loop L xs lp c w = (Ok c, w).
Proof.
  induction 1 as [|x xs Hx _ IH]; [done |].
  cbn [_build_context_loop]. by rewrite Hx.
Qed.

(** The context file that [iglob] yields last among those that are
    merged has the last word: a key of its mapping has, in the merged
    context, the value that file gives it, whatever the files before
    it say. *)
Theorem build_context_last_file_wins
    L self local_path pre p post w text kvs1 k v kvs2 ctx w' :
  iglob L (source_path self ++ str "/**/context.yaml") = pre ++ p :: post →
  pystring.startswith local_path (posixpath.dirname p) = true →
  Forall (λ q, pystring.startswith local_path (posixpath.dirname q) = false)
    post →
  read_text L p w = (Ok text, w) →
  yaml_load L text = Ok (PDict (kvs1 ++ (k, v) :: kvs2)) →
  k ∉ kvs2.*1 →
  _build_context L self local_path w = (Ok ctx, w') →
  ctx !! k = Some v.
Proof.
  intros Hfound Hp Hpost Hread Hload Hk Hctx.
  unfold _build_context in Hctx. rewrite Hfound in Hctx.
  apply build_context_loop_app_inv in Hctx as (c1 & _ & Hctx).
  cbn [_build_context_loop] in Hctx. rewrite Hp in Hctx.
  apply bind_ok_inv in Hctx as (t & w2 & Hr & Hctx).
  rewrite Hread in Hr. injection Hr as <- <-.
  apply bind_ok_inv in Hctx as (loaded & w3 & Hl & Hctx).
  unfold lift in Hl. rewrite Hload in Hl. injection Hl as <- <-.
  apply bind_ok_inv in Hctx as (c' & w4 & Hu & Hctx).
  unfold lift in Hu. cbn [dict_update] in Hu. injection Hu as <- <-.
  rewrite build_context_loop_unmatched in Hctx by done.
  injection Hctx as <- _. by apply dict_set_all_last.
Qed.

(** An empty [context.yaml] stops the build of every page below it:
    [yaml.load] gives [None] for it, [dict.update] rejects [None], and
    [_build_context] raises [TypeError]. *)
Theorem build_context_empty_file_raises
    L self local_path pre p post w c1 text :
  iglob L (source_path self ++ str "/**/context.yaml") = pre ++ p :: post →
  _build_context_loop L pre local_path ∅ w = (Ok c1, w) →
  pystring.startswith local_path (posixpath.dirname p) = true →
  read_text L p w = (Ok text, w) →
  yaml_load L text = Ok PNone →
  _build_context L self local_path w = (Raise TypeError, w).
Proof.
  intros Hfound Hpre Hp Hread Hload.
  unfold _build_context. rewrite Hfound.
  rewrite (build_context_loop_app_ok _ _ _ _ _ _ _ _ Hpre).
  cbn [_build_context_loop]. rewrite Hp.
  rewrite (bind_ok _ _ _ _ _ Hread). unfold lift, mbind, M_bind.
  by rewrite Hload.
Qed.

(** A tree with a [context.yaml] at the root, one in [docs/en] and an
    empty one in [docs/fr]. *)
Module nested.

Definition libs_ : libs := {|
  cwd := str "/w";
  iglob := λ pattern,
    if bool_decide (pattern = str "docs/**/context.yaml")
    then [str "docs/context.yaml"; str "docs/en/context.yaml";
          str "docs/fr/context.yaml"]
    else [];
  frontmatter_loads := λ text, Ok (∅, text);
  markdown_convert := λ text, (str "<p>" ++ text ++ str "</p>", Some ∅);
  yaml_load := λ text,
    match text with
    | [] => Ok PNone
    | _ :: _ => Ok (PDict [(str "title", PStr text); (str "site", PStr (str "Docs"))])
    end
|}.

Definition world_ : world := {|
  files := list_to_map [
    ([str "w"; str "docs"; str "context.yaml"], str "Docs");
    ([str "w"; str "docs"; str "en"; str "context.yaml"], str "English");
    ([str "w"; str "docs"; str "fr"; str "context.yaml"], [])];
  dirs := list_to_set [
    [str "w"]; [str "w"; str "docs"];
    [str "w"; str "docs"; str "en"]; [str "w"; str "docs"; str "fr"]];
  stdout := [];
  stderr := []
|}.

End nested.

Lemma build_context_last_file_wins_witness :
  _build_context nested.libs_ demo.docs_builder (str "docs/en") nested.world_
  = (Ok {[ str "title" := PStr (str "English");
           str "site" := PStr (str "Docs") ]}, nested.world_)
  ∧ ({[ str "title" := PStr (str "English");
        str "site" := PStr (str "Docs") ]} : pydict) !! str "title"
    = Some (PStr (str "English")).
Proof.
  split; [vm_compute; reflexivity |].
  apply (build_context_last_file_wins
           nested.libs_ demo.docs_builder (str "docs/en")
           [str "docs/context.yaml"] (str "docs/en/context.yaml")
           [str "docs/fr/context.yaml"] nested.world_ (str "English")
           [] (str "title") (PStr (str "English"))
           [(str "site", PStr (str "Docs"))] _ nested.world_).
  - reflexivity.
  - reflexivity.
  - repeat constructor.
  - vm_compute. reflexivity.
  - reflexivity.
  - intros H. apply list_elem_of_singleton in H. discriminate H.
  - vm_compute. reflexivity.
Defined.

Lemma build_context_empty_file_raises_witness :
  _build_context nested.libs_ demo.docs_builder (str "docs/fr") nested.world_
  = (Raise TypeError, nested.world_).
Proof.
  apply (build_context_empty_file_raises
           nested.libs_ demo.docs_builder (str "docs/fr")
           [str "docs/context.yaml"; str "docs/en/context.yaml"]
           (str "docs/fr/context.yaml") [] nested.world_
           {[ str "title" := PStr (str "Docs");
              str "site" := PStr (str "Docs") ]} []).
  - reflexivity.
  - vm_compute. reflexivity.
  - reflexivity.
  - vm_compute. reflexivity.
  - reflexivity.
Defined.

(** ** What the link pattern cannot match *)

Module link_facts.
Import re.

(** A literal word matches exactly when the text starts with it. *)
Lemma run_lit {R} w s st (k : pystr → mstate → option R) :
  run (Lit w) s st k =
    if pystring.startswith s w
    then k (drop (length w) s) (MState (m_pos st + length w) (m_group st))
    else None.
Proof.
  revert s st. induction w as [|c w IH]; intros s st.
  - cbn. rewrite Nat.add_0_r. by destruct st.
  - cbn [Lit run pystring.startswith]. destruct s as [|b s]; [done |].
    cbn [atom_matches]. rewrite (bool_decide_ext (b = c) (c = b)) by done.
    case_bool_decide; [| done]. cbn [andb]. rewrite IH.
    cbn [length drop advance m_pos m_group].
    by rewrite Nat.add_succ_r.
Qed.

(** What is left for the continuation is an end of the text. *)
Lemma star_suffix {R} a s st (k : pystr → mstate → option R) x :
  star a s st k = Some x →
  ∃ s1 st1, k s1 st1 = Some x ∧ s1 `suffix_of` s.
Proof.
  revert st. induction s as [|c s IH]; intros st; simpl.
  - intros H. by exists [], st.
  - destruct (atom_matches a c).
    + destruct (star a s (advance st) k) as [y|] eqn:E.
      * intros [= ->]. destruct (IH _ E) as (s1 & st1 & Hk & Hs).
        exists s1, st1. split; [done |]. by apply suffix_cons_r.
      * intros H. by exists (c :: s), st.
    + intros H. by exists (c :: s), st.
Qed.

Lemma run_suffix r : ∀ {R} s st (k : pystr → mstate → option R) x,
  run r s st k = Some x →
  ∃ s1 st1, k s1 st1 = Some x ∧ s1 `suffix_of` s.
Proof.
  induction r as [|a|a|r1 IH1 r2 IH2|r1 IH1|r1 IH1|]; intros R s st k x; simpl.
  - intros H. by exists s, st.
  - destruct s as [|c s]; [done |]. destruct (atom_matches a c); [|done].
    intros H. exists s, (advance st). split; [done |]. by apply suffix_cons_r.
  - apply star_suffix.
  - intros H. destruct (IH1 _ _ _ _ _ H) as (s1 & st1 & H2 & Hs1).
    destruct (IH2 _ _ _ _ _ H2) as (s2 & st2 & Hk & Hs2).
    exists s2, st2. split; [done |]. by etrans.
  - intros H. destruct (IH1 _ _ _ _ _ H) as (s1 & st1 & Hk & Hs).
    by eexists _, _.
  - destruct (run r1 s st _); [done |]. intros H. by exists s, st.
  - destruct (at_dollar s); [|done]. intros H. by exists s, st.
Qed.

End link_facts.

(** [href=] and the double quote. *)
Definition href_open : pystr := str "href=" ++ [DQ].

(** The text starts, after any spaces, with [http]: the lookahead of
    the link pattern. *)
Definition starts_http (r : pystr) : bool :=
  pystring.startswith (pystring.lstrip SP r) (str "http").

Lemma lookahead_http r st :
  re.star (re.Chr SP) r st
    (λ s1 st1, re.run (re.Lit (str "http")) s1 st1 (λ _ _, Some ()))
  = if starts_http r then Some () else None.
Proof.
  unfold starts_http. revert st.
  induction r as [|c r IH]; intros st.
  - reflexivity.
  - cbn [re.star re.atom_matches pystring.lstrip].
    case_bool_decide as Hc.
    + rewrite IH. destruct (pystring.startswith _ _); [done |].
      subst c. rewrite link_facts.run_lit. reflexivity.
    + rewrite link_facts.run_lit. by destruct (pystring.startswith _ _).
Qed.

(** Where the link pattern matches, the text starts with [href=] and
    a quote, what follows does not start with [http], and [.md] occurs
    in the text. *)
Lemma href_md_match_inv s st :
  re.match_here href_md_pattern s = Some st →
  (∃ q, s = href_open ++ q ∧ starts_http q = false)
  ∧ (∃ p q, s = p ++ str ".md" ++ q).
Proof.
  unfold re.match_here, href_md_pattern. intros H. split.
  - cbn [re.run] in H. rewrite link_facts.run_lit in H.
    fold href_open in H.
    destruct (pystring.startswith s href_open) eqn:Hs; [| done].
    apply startswith_spec in Hs as [q ->]. exists q. split; [done |].
    rewrite drop_app_length in H.
    rewrite lookahead_http in H. by destruct (starts_http q).
  - cbn [re.run] in H.
    apply (link_facts.run_suffix
             (re.Seq (re.Lit (str "href=" ++ [DQ]))
                (re.Seq (re.NotAhead
                           (re.Seq (re.Star (re.Chr SP)) (re.Lit (str "http"))))
                   (re.Star re.Dot)))) in H
      as (s1 & st1 & H & [p Hp]).
    rewrite link_facts.run_lit in H.
    destruct (pystring.startswith s1 (str ".md")) eqn:Hs; [| done].
    apply startswith_spec in Hs as [q ->]. by exists p, q.
Qed.
